(** * MAX7219 seven-segment driver: a shallow embedding of
      [seven_segment_MAX7219.h] / [seven_segment_MAX7219.cpp]

    The driver bit-bangs two-byte frames to a MAX7219 over three digital
    pins.  Its only effects are calls to the Arduino pin primitives, so an
    operation is modelled as a value together with the list of primitive
    calls it performs, in program order.  A small model of the receiving
    end of the link (shift register, LOAD latch, register file) is used to
    read a pin trace back as frames and register contents. *)

From Stdlib Require Import ZArith List Bool String Ascii Lia.
Import ListNotations.
Open Scope Z_scope.

(* ================================================================== *)
(** ** Machine integers *)

(** [(byte)x]: conversion to the 8-bit unsigned type, also what assigning
    to a [byte] variable or passing a [byte] argument does. *)
Definition byte_cast (z : Z) : Z := z mod 256.


(* ================================================================== *)
(** ** The platform: pin primitives and their trace *)

Inductive level : Set := LOW | HIGH.
Inductive pin_mode : Set := INPUT | OUTPUT.
Inductive bit_order : Set := LSBFIRST | MSBFIRST.

Inductive event : Set :=
| PinMode (pin : Z) (m : pin_mode)
| DigitalWrite (pin : Z) (l : level)
| Delay (ms : Z)
| SerialPrintln (msg : string).

Definition level_eqb (a b : level) : bool :=
  match a, b with
  | LOW, LOW | HIGH, HIGH => true
  | _, _ => false
  end.

Definition level_of_bool (b : bool) : level := if b then HIGH else LOW.

(** An operation of the driver: its result and the primitive calls made. *)
Definition io (A : Type) : Type := (A * list event)%type.

Definition ret {A} (a : A) : io A := (a, []).

Definition bind {A B} (m : io A) (k : A -> io B) : io B :=
  let (a, t1) := m in
  let (b, t2) := k a in
  (b, t1 ++ t2).

Declare Scope io_scope.
Delimit Scope io_scope with io.
Notation "x <- m ;; k" := (bind m (fun x => k))
  (at level 61, m at next level, right associativity) : io_scope.
Notation "m ;; k" := (bind m (fun _ => k))
  (at level 61, right associativity) : io_scope.
Open Scope io_scope.

Definition result {A} (m : io A) : A := fst m.
Definition trace {A} (m : io A) : list event := snd m.

Definition pinMode (pin : Z) (m : pin_mode) : io unit := (tt, [PinMode pin m]).
Definition digitalWrite (pin : Z) (l : level) : io unit :=
  (tt, [DigitalWrite pin l]).
Definition delay (ms : Z) : io unit := (tt, [Delay ms]).
Definition Serial_println (msg : string) : io unit := (tt, [SerialPrintln msg]).

(** [for (int i = lo; i < hi; i++) body(i);] *)
Fixpoint for_loop (n : nat) (i : Z) (body : Z -> io unit) : io unit :=
  match n with
  | O => ret tt
  | S n' => body i ;; for_loop n' (i + 1) body
  end.

Definition for_lt (lo hi : Z) (body : Z -> io unit) : io unit :=
  for_loop (Z.to_nat (hi - lo)) lo body.

(** Modelled from the spec: [shiftOut] is the platform's library routine, not
    part of the driver's sources.  The spec has each byte "shifted out
    most-significant-bit-first" on the data line, one clock pulse per bit;
    the loop below is the usual eight-iteration form of that routine, the
    value kept in an 8-bit variable that is shifted after each bit. *)
Fixpoint shiftOut_loop (n : nat) (dataPin clockPin : Z) (order : bit_order)
  (val : Z) : io unit :=
  match n with
  | O => ret tt
  | S n' =>
      match order with
      | LSBFIRST =>
          digitalWrite dataPin (level_of_bool (negb (Z.land val 1 =? 0))) ;;
          digitalWrite clockPin HIGH ;;
          digitalWrite clockPin LOW ;;
          shiftOut_loop n' dataPin clockPin order (Z.shiftr val 1)
      | MSBFIRST =>
          digitalWrite dataPin (level_of_bool (negb (Z.land val 128 =? 0))) ;;
          digitalWrite clockPin HIGH ;;
          digitalWrite clockPin LOW ;;
          shiftOut_loop n' dataPin clockPin order (byte_cast (Z.shiftl val 1))
      end
  end.

Definition shiftOut (dataPin clockPin : Z) (order : bit_order) (val : Z)
  : io unit :=
  shiftOut_loop 8 dataPin clockPin order (byte_cast val).

(** Modelled from the spec: what the platform fixes and the driver's sources
    do not.  [sizeof_String] is [sizeof(String)], the size in bytes of the
    platform's string object (the spec: "determines the string's length from
    the size of its container"); [progmem_after k] is the byte stored in
    program memory [k] bytes past the last entry of [asciiTableRef]. *)
Record platform : Type := {
  sizeof_String : Z;
  progmem_after : Z -> Z
}.

(** Modelled from the spec: indexing the platform's string object.  The spec
    takes a string as "a sequence of characters"; an index at or past the
    length yields the zero character. *)
Definition String_at (s : string) (i : Z) : Z :=
  if i <? 0 then 0
  else match String.get (Z.to_nat i) s with
       | Some c => Z.of_nat (nat_of_ascii c)
       | None => 0
       end.

(* ================================================================== *)
(** ** seven_segment_MAX7219.h *)

(** The platform's binary constants [B00000001] ... : the value of the eight
    binary digits. *)
Fixpoint bin_value (s : string) (acc : Z) : Z :=
  match s with
  | EmptyString => acc
  | String c s' => bin_value s' (2 * acc + (if Ascii.eqb c "1" then 1 else 0))
  end.

Definition B (s : string) : Z := bin_value s 0.

Definition asciiTableRef : list Z :=
  [ B "00000001"; B "10000000"; B "00000000"; B "01111110";
      B "00110000"; B "01101101"; B "01111001"; B "00110011";
      B "01011011"; B "01011111"; B "01110000";
    B "01111111"; B "01111011"; B "00000000"; B "00000000";
      B "00000000"; B "00000000"; B "00000000"; B "00000000";
    B "00000000"; B "01110111"; B "00011111"; B "00001101";
      B "00111101"; B "01001111"; B "01000111"; B "01111011";
    B "00110111"; B "00110000"; B "00111000"; B "00000000";
      B "00001110"; B "00000000"; B "00010101"; B "01111110";
    B "01100111"; B "00000000"; B "00000101"; B "01011011";
      B "00001111"; B "00111110"; B "00011100"; B "00000000";
    B "00000000"; B "00111011"; B "00000000" ].

(** [sizeof(asciiTableRef)]: the entries are single bytes. *)
Definition sizeof_asciiTableRef : Z := Z.of_nat (List.length asciiTableRef).

Record SegmentDriver : Set := {
  MOSI : Z;
  CLK : Z;
  CS : Z
}.

(* ================================================================== *)
(** ** seven_segment_MAX7219.cpp *)

Definition CTRL_DECODEMODE : Z := 0x09.
Definition CTRL_INTENSITY : Z := 0x0A.
Definition CTRL_SCANLIMIT : Z := 0x0B.
Definition CTRL_SHUTDOWN : Z := 0x0C.
Definition CTRL_DISPLAYTEST : Z := 0x0F.

Definition ASCII_OFFSET : Z := 45.
Definition DISPLAY_LENGTH : Z := 8.

(** [pgm_read_byte_near(asciiTableRef + idx)]: the table entry when [idx] is
    an index of the table, otherwise whatever program memory holds there. *)
Definition pgm_read_byte_near (P : platform) (idx : Z) : Z :=
  match nth_error asciiTableRef (Z.to_nat idx) with
  | Some b => b
  | None => byte_cast (progmem_after P (idx - sizeof_asciiTableRef))
  end.

Definition sendSPI (drv : SegmentDriver) (data instruction : Z) : io Z :=
  let data := byte_cast data in
  let instruction := byte_cast instruction in
  digitalWrite (CS drv) LOW ;;
  shiftOut (MOSI drv) (CLK drv) MSBFIRST instruction ;;
  shiftOut (MOSI drv) (CLK drv) MSBFIRST data ;;
  digitalWrite (CS drv) HIGH ;;
  ret 0.

Definition turnOn (drv : SegmentDriver) : io Z := sendSPI drv 1 CTRL_SHUTDOWN.
Definition turnOff (drv : SegmentDriver) : io Z := sendSPI drv 0 CTRL_SHUTDOWN.

Definition setBrightness (drv : SegmentDriver) (value : Z) : io Z :=
  if (value <? 0) || (value >? 15) then ret (-1)
  else sendSPI drv value CTRL_INTENSITY.

Definition setScanLimit (drv : SegmentDriver) (limit : Z) : io Z :=
  if (limit <? 0) || (limit >? 7) then ret (-1)
  else sendSPI drv limit CTRL_SCANLIMIT.

(** The table index [setChar] ends up with: the local [val], a [byte]. *)
Definition setChar_index (chr : Z) : Z :=
  let val := byte_cast chr in
  let val := if (val >=? 97) && (val <=? 122) then byte_cast (val - 32)
             else val in
  let val := byte_cast (val - ASCII_OFFSET) in
  if (val <? 0) || (val >? sizeof_asciiTableRef) then 2 else val.

Definition setChar (P : platform) (drv : SegmentDriver) (place chr : Z)
  : io Z :=
  sendSPI drv (pgm_read_byte_near P (setChar_index chr)) (place + 1).

(** [int len = (sizeof(string) > 9) ? 8 : sizeof(string) - 1;] *)
Definition setString_len (P : platform) : Z :=
  if sizeof_String P >? 9 then 8 else sizeof_String P - 1.

Definition setString (P : platform) (drv : SegmentDriver) (s : string)
  : io Z :=
  let len := setString_len P in
  for_lt 0 len (fun i =>
    setChar P drv ((DISPLAY_LENGTH - 1) - i) (String_at s i) ;; ret tt) ;;
  ret 0.

Definition clear (P : platform) (drv : SegmentDriver) : io unit :=
  for_lt 1 (DISPLAY_LENGTH + 1) (fun _ =>
    setString P drv "        " ;; ret tt).

(** The constructor: the handle it builds and what it does to the pins. *)
Definition SegmentDriver_new (P : platform) (pinDIN pinCLK pinCS : Z)
  : io SegmentDriver :=
  let drv := {| MOSI := pinDIN; CLK := pinCLK; CS := pinCS |} in
  pinMode (MOSI drv) OUTPUT ;;
  pinMode (CLK drv) OUTPUT ;;
  pinMode (CS drv) OUTPUT ;;
  digitalWrite (CS drv) HIGH ;;
  r <- sendSPI drv 0 CTRL_DISPLAYTEST ;;
  (if negb (r =? 0) then Serial_println "Test display failed." else ret tt) ;;
  r <- setScanLimit drv 7 ;;
  (if negb (r =? 0) then Serial_println "Setting scan limit failed."
   else ret tt) ;;
  r <- setBrightness drv 15 ;;
  (if negb (r =? 0) then Serial_println "Setting brightness failed."
   else ret tt) ;;
  turnOn drv ;;
  clear P drv ;;
  delay 1000 ;;
  ret drv.

(* ================================================================== *)
(** ** The receiving end of the link

    Modelled from the spec: the display controller is hardware, outside the
    driver's sources; this is the spec's wire protocol read from the other
    side, the "simulated link" its testable properties read state back from.

    The display controller as the driver sees it: a serial-data input, a
    clock input and a load (latch) input.  A bit is taken from the data line
    at each rising edge of the clock; at a rising edge of the load line the
    sixteen bits received last become a frame: the earlier eight are the
    instruction/address byte, the later eight the data byte, each with its
    first bit as the most significant.  The low four bits of the instruction
    byte select the register the data byte is stored in. *)

Module MAX7219.

Record device : Type := {
  din : level;
  clk : level;
  load : level;
  shreg : list bool;          (* bits received, the latest first *)
  regs : Z -> Z;              (* register file, by address *)
  latched : list (Z * Z)      (* frames taken so far: (instruction, data) *)
}.

(** Value of a run of bits whose head is the least significant. *)
Fixpoint le_value (bs : list bool) : Z :=
  match bs with
  | [] => 0
  | b :: bs' => Z.b2z b + 2 * le_value bs'
  end.

Definition frame_data (sr : list bool) : Z := le_value (firstn 8 sr).
Definition frame_instruction (sr : list bool) : Z :=
  le_value (firstn 8 (skipn 8 sr)).

Definition upd (r : Z -> Z) (a v : Z) : Z -> Z :=
  fun x => if x =? a then v else r x.

Definition rising (old new : level) : bool :=
  level_eqb old LOW && level_eqb new HIGH.

Definition on_load (d : device) (l : level) : device :=
  if rising (load d) l then
    let i := frame_instruction (shreg d) in
    let v := frame_data (shreg d) in
    {| din := din d; clk := clk d; load := l; shreg := shreg d;
       regs := upd (regs d) (i mod 16) v;
       latched := latched d ++ [(i, v)] |}
  else
    {| din := din d; clk := clk d; load := l; shreg := shreg d;
       regs := regs d; latched := latched d |}.

Definition on_clk (d : device) (l : level) : device :=
  {| din := din d; clk := l; load := load d;
     shreg := if rising (clk d) l then level_eqb (din d) HIGH :: shreg d
              else shreg d;
     regs := regs d; latched := latched d |}.

Definition on_din (d : device) (l : level) : device :=
  {| din := l; clk := clk d; load := load d; shreg := shreg d;
     regs := regs d; latched := latched d |}.

Definition step (drv : SegmentDriver) (d : device) (e : event) : device :=
  match e with
  | DigitalWrite pin l =>
      if pin =? CS drv then on_load d l
      else if pin =? CLK drv then on_clk d l
      else if pin =? MOSI drv then on_din d l
      else d
  | _ => d
  end.

Definition run (drv : SegmentDriver) (d : device) (t : list event) : device :=
  fold_left (step drv) t d.

(** The device before anything was sent: lines low, registers zero. *)
Definition power_on : device :=
  {| din := LOW; clk := LOW; load := LOW; shreg := [];
     regs := fun _ => 0; latched := [] |}.

(** Register address of a display position. *)
Definition digit (position : Z) : Z := position + 1.

End MAX7219.

(** Observations on a pin trace. *)
Definition writes_to (pin : Z) (t : list event) : list level :=
  flat_map (fun e => match e with
                     | DigitalWrite p l => if p =? pin then [l] else []
                     | _ => []
                     end) t.

Definition bits_msb_first (v : Z) : list bool :=
  map (fun k => Z.testbit v (Z.of_nat k)) [7; 6; 5; 4; 3; 2; 1; 0]%nat.

Definition distinct_pins (drv : SegmentDriver) : Prop :=
  MOSI drv <> CLK drv /\ MOSI drv <> CS drv /\ CLK drv <> CS drv.

(** Platforms used in examples: an 8-bit AVR board, whose string object is
    three 2-byte fields, and a 32-bit board with a 16-byte string object. *)
Definition avr : platform :=
  {| sizeof_String := 6; progmem_after := fun _ => 255 |}.
Definition esp32 : platform :=
  {| sizeof_String := 16; progmem_after := fun _ => 255 |}.
Definition uno_pins : SegmentDriver := {| MOSI := 11; CLK := 13; CS := 10 |}.

(** One bit on the wire: data line set, then a clock pulse. *)
Definition bit_pulse (dataPin clockPin : Z) (b : bool) : list event :=
  [DigitalWrite dataPin (level_of_bool b);
   DigitalWrite clockPin HIGH; DigitalWrite clockPin LOW].

(** The bits the most-significant-first loop puts on the data line. *)
Fixpoint loop_bits (n : nat) (val : Z) : list bool :=
  match n with
  | O => []
  | S n' => negb (Z.land val 128 =? 0)
            :: loop_bits n' (byte_cast (Z.shiftl val 1))
  end.

Definition bools_eqb (a b : list bool) : bool :=
  if list_eq_dec Bool.bool_dec a b then true else false.

(** The values a [for_loop] of [n] rounds from [i] gives its body. *)
Fixpoint zrange (n : nat) (i : Z) : list Z :=
  match n with
  | O => []
  | S n' => i :: zrange n' (i + 1)
  end.

(** The segment pattern [setChar] transmits for a character. *)
Definition glyph (P : platform) (chr : Z) : Z :=
  pgm_read_byte_near P (setChar_index chr).

(** The frames one call of [setString] is expected to produce. *)
Definition setString_frames (P : platform) (s : string) : list (Z * Z) :=
  map (fun i => (DISPLAY_LENGTH - i, glyph P (String_at s i)))
      (zrange (Z.to_nat (setString_len P)) 0).

(** Register contents after a run of frames. *)
Definition store_frames (r : Z -> Z) (fs : list (Z * Z)) : Z -> Z :=
  fold_left (fun r f => MAX7219.upd r (fst f mod 16) (snd f)) fs r.

(** The character-code index of the specification: case folded, offset
    removed, as an integer (it may be negative). *)
Definition normalized_index (chr : Z) : Z :=
  (if (97 <=? chr) && (chr <=? 122) then chr - 32 else chr) - ASCII_OFFSET.

(** A device on which every register holds [0xFF] (all segments lit), the
    lines idle: a display showing earlier content. *)
Definition all_lit : MAX7219.device :=
  {| MAX7219.din := LOW; MAX7219.clk := LOW; MAX7219.load := HIGH;
     MAX7219.shreg := []; MAX7219.regs := fun _ => 255;
     MAX7219.latched := [] |}.

(** [n] clock pulses, as the levels written to the clock line. *)
Definition clock_pulses (n : nat) : list level :=
  flat_map (fun _ => [HIGH; LOW]) (repeat tt n).

(** [sends drv t fs]: from any state with the clock line low, the trace [t]
    makes the device take exactly the frames [fs], and leaves the clock low. *)
Definition sends (drv : SegmentDriver) (t : list event) (fs : list (Z * Z))
  : Prop :=
  forall d, MAX7219.clk d = LOW ->
    MAX7219.clk (MAX7219.run drv d t) = LOW /\
    MAX7219.latched (MAX7219.run drv d t) = MAX7219.latched d ++ fs /\
    MAX7219.regs (MAX7219.run drv d t) = store_frames (MAX7219.regs d) fs.

(** The intended outcome of the index guard, as a test on one character:
    the index is inside the table, blank when the normalized index is not,
    and the normalized index otherwise. *)
Definition index_ok (c : Z) : bool :=
  let i := setChar_index c in
  let n := normalized_index c in
  match nth_error asciiTableRef (Z.to_nat i) with
  | Some _ => if (n <? 0) || (45 <? n) then i =? 2 else i =? n
  | None => false
  end.

(** Positions past the display whose digit address is a control register. *)
Definition control_positions : list (Z * Z) :=
  [(8, CTRL_DECODEMODE); (9, CTRL_INTENSITY); (10, CTRL_SCANLIMIT);
   (11, CTRL_SHUTDOWN); (14, CTRL_DISPLAYTEST)].

(** The value the frames [fs] leave in register [x], if any of them
    addresses it: the last one wins. *)
Fixpoint written (fs : list (Z * Z)) (x : Z) : option Z :=
  match fs with
  | [] => None
  | f :: fs' =>
      match written fs' x with
      | Some v => Some v
      | None => if x =? fst f mod 16 then Some (snd f) else None
      end
  end.

(** The link at rest between two frames: clock low, latch high. *)
Definition idle (d : MAX7219.device) : Prop :=
  MAX7219.clk d = LOW /\ MAX7219.load d = HIGH.

(** [transmits drv t fs]: from a link at rest, the trace [t] hands the device
    exactly the frames [fs] and leaves the link at rest. *)
Definition transmits (drv : SegmentDriver) (t : list event)
  (fs : list (Z * Z)) : Prop :=
  forall d, idle d ->
    idle (MAX7219.run drv d t) /\
    MAX7219.latched (MAX7219.run drv d t) = MAX7219.latched d ++ fs /\
    MAX7219.regs (MAX7219.run drv d t) = store_frames (MAX7219.regs d) fs.

(** The table entry [setChar] selects, when its index is one of the table. *)
Definition table_glyph (chr : Z) : Z :=
  nth (Z.to_nat (setChar_index chr)) asciiTableRef 0.

(** Upper case of a character code, as [setChar] folds it. *)
Definition fold_case (c : Z) : Z :=
  if (97 <=? c) && (c <=? 122) then c - 32 else c.

(** A string with its lowercase letters replaced by the uppercase ones. *)
Definition upcase_char (c : ascii) : ascii :=
  ascii_of_nat (Z.to_nat (fold_case (Z.of_nat (nat_of_ascii c)))).

Fixpoint upcase (s : string) : string :=
  match s with
  | EmptyString => EmptyString
  | String c s' => String (upcase_char c) (upcase s')
  end.

(** The characters the table has a pattern with some segment lit for:
    '-', '.', the digits, and the letters other than K, M, Q, W, X, Z. *)
Definition lights (c : Z) : bool :=
  let u := fold_case c in
  (u =? 45) || (u =? 46) || ((48 <=? u) && (u <=? 57)) ||
  ((65 <=? u) && (u <=? 90) &&
   negb (existsb (Z.eqb u) [75; 77; 81; 87; 88; 90])).

(** The frames of the constructor's configuration sequence. *)
Definition config_frames : list (Z * Z) :=
  [(CTRL_DISPLAYTEST, 0); (CTRL_SCANLIMIT, 7); (CTRL_INTENSITY, 15);
   (CTRL_SHUTDOWN, 1)].

(** The frames of [clear]: eight times those of a string of spaces. *)
Definition clear_frames (P : platform) : list (Z * Z) :=
  flat_map (fun _ => setString_frames P "        ") (zrange 8 1).

(* ================================================================== *)
(** * Properties *)

(** ** The trace monad *)

Lemma trace_bind {A B} (m : io A) (k : A -> io B) :
  trace (bind m k) = trace m ++ trace (k (result m)).
Proof.
  unfold bind, trace, result. destruct m as [a t1]. cbn.
  destruct (k a) as [b t2]. reflexivity.
Qed.

Lemma result_bind {A B} (m : io A) (k : A -> io B) :
  result (bind m k) = result (k (result m)).
Proof.
  unfold bind, result. destruct m as [a t1]. cbn.
  destruct (k a) as [b t2]. reflexivity.
Qed.

(** ** Bytes *)

Lemma byte_cast_range z : 0 <= byte_cast z < 256.
Proof. unfold byte_cast. apply Z.mod_pos_bound. lia. Qed.

Lemma byte_cast_small z : 0 <= z < 256 -> byte_cast z = z.
Proof. intros H. unfold byte_cast. apply Z.mod_small. exact H. Qed.

Lemma byte_cast_idem z : byte_cast (byte_cast z) = byte_cast z.
Proof. apply byte_cast_small, byte_cast_range. Qed.

(** A property checked on the 256 byte values holds of every byte. *)
Lemma byte_forall (f : Z -> bool) :
  forallb f (map Z.of_nat (seq 0 256)) = true ->
  forall v, 0 <= v < 256 -> f v = true.
Proof.
  intros H v Hv. rewrite forallb_forall in H. apply H.
  apply in_map_iff. exists (Z.to_nat v). split; [lia |].
  apply in_seq. lia.
Qed.

Lemma bools_eqb_eq a b : bools_eqb a b = true -> a = b.
Proof.
  unfold bools_eqb. destruct (list_eq_dec Bool.bool_dec a b); congruence.
Qed.

Lemma loop_bits_byte v :
  0 <= v < 256 -> loop_bits 8 v = bits_msb_first v.
Proof.
  intros Hv. apply bools_eqb_eq.
  apply (byte_forall (fun v => bools_eqb (loop_bits 8 v) (bits_msb_first v)));
    [vm_compute; reflexivity | exact Hv].
Qed.

Lemma le_value_msb_first v :
  0 <= v < 256 -> MAX7219.le_value (rev (bits_msb_first v)) = v.
Proof.
  intros Hv. apply Z.eqb_eq.
  apply (byte_forall
           (fun v => MAX7219.le_value (rev (bits_msb_first v)) =? v));
    [vm_compute; reflexivity | exact Hv].
Qed.

Lemma bits_msb_first_length v : List.length (bits_msb_first v) = 8%nat.
Proof. reflexivity. Qed.



(** ** The transmit primitive, as a trace and as seen by the device *)

Lemma shiftOut_loop_trace n dataPin clockPin val :
  trace (shiftOut_loop n dataPin clockPin MSBFIRST val)
  = flat_map (bit_pulse dataPin clockPin) (loop_bits n val).
Proof.
  revert val. induction n as [| n IH]; intros val; [reflexivity |].
  cbn [shiftOut_loop loop_bits flat_map].
  rewrite !trace_bind, IH. reflexivity.
Qed.

Lemma shiftOut_trace dataPin clockPin val :
  trace (shiftOut dataPin clockPin MSBFIRST val)
  = flat_map (bit_pulse dataPin clockPin) (bits_msb_first (byte_cast val)).
Proof.
  unfold shiftOut. rewrite shiftOut_loop_trace, loop_bits_byte; [reflexivity |].
  apply byte_cast_range.
Qed.

Lemma sendSPI_trace drv data instruction :
  trace (sendSPI drv data instruction)
  = DigitalWrite (CS drv) LOW
    :: flat_map (bit_pulse (MOSI drv) (CLK drv))
         (bits_msb_first (byte_cast instruction)
          ++ bits_msb_first (byte_cast data))
    ++ [DigitalWrite (CS drv) HIGH].
Proof.
  unfold sendSPI. rewrite !trace_bind, !shiftOut_trace, !byte_cast_idem.
  cbn [trace digitalWrite ret snd app].
  rewrite flat_map_app, <- app_assoc. reflexivity.
Qed.

Lemma sendSPI_result drv data instruction :
  result (sendSPI drv data instruction) = 0.
Proof. unfold sendSPI. rewrite !result_bind. reflexivity. Qed.

Lemma writes_to_app pin t1 t2 :
  writes_to pin (t1 ++ t2) = writes_to pin t1 ++ writes_to pin t2.
Proof. unfold writes_to. apply flat_map_app. Qed.

Section Link.

Variable drv : SegmentDriver.
Hypothesis pins : distinct_pins drv.

Import MAX7219.

Lemma run_app d t1 t2 : run drv d (t1 ++ t2) = run drv (run drv d t1) t2.
Proof. unfold run. apply fold_left_app. Qed.

Lemma writes_to_pulses_CS bs :
  writes_to (CS drv) (flat_map (bit_pulse (MOSI drv) (CLK drv)) bs) = [].
Proof.
  destruct pins as (_ & H1 & H2).
  induction bs as [| b bs IH]; [reflexivity |].
  cbn [flat_map]. rewrite writes_to_app, IH, app_nil_r.
  unfold writes_to, bit_pulse. cbn [flat_map].
  destruct (Z.eqb_spec (MOSI drv) (CS drv)); [contradiction |].
  destruct (Z.eqb_spec (CLK drv) (CS drv)); [contradiction |].
  reflexivity.
Qed.

Lemma writes_to_pulses_CLK bs :
  writes_to (CLK drv) (flat_map (bit_pulse (MOSI drv) (CLK drv)) bs)
  = flat_map (fun _ => [HIGH; LOW]) bs.
Proof.
  destruct pins as (H0 & _ & _).
  induction bs as [| b bs IH]; [reflexivity |].
  cbn [flat_map]. rewrite writes_to_app, IH.
  unfold writes_to at 1, bit_pulse. cbn [flat_map].
  destruct (Z.eqb_spec (MOSI drv) (CLK drv)); [contradiction |].
  rewrite Z.eqb_refl. reflexivity.
Qed.

Lemma writes_to_pulses_MOSI bs :
  writes_to (MOSI drv) (flat_map (bit_pulse (MOSI drv) (CLK drv)) bs)
  = map level_of_bool bs.
Proof.
  destruct pins as (H0 & _ & _).
  induction bs as [| b bs IH]; [reflexivity |].
  cbn [flat_map map]. rewrite writes_to_app, IH.
  unfold writes_to at 1, bit_pulse. cbn [flat_map].
  rewrite Z.eqb_refl.
  destruct (Z.eqb_spec (CLK drv) (MOSI drv)); [congruence |].
  reflexivity.
Qed.

(** Clocking a run of bits into the device. *)
Lemma run_pulses bs : forall d,
  clk d = LOW ->
  let d' := run drv d (flat_map (bit_pulse (MOSI drv) (CLK drv)) bs) in
  clk d' = LOW /\ load d' = load d /\ shreg d' = rev bs ++ shreg d /\
  regs d' = regs d /\ latched d' = latched d.
Proof.
  destruct pins as (H0 & H1 & H2).
  induction bs as [| b bs IH]; intros d Hclk; [cbn; auto |].
  cbn zeta. cbn [flat_map]. rewrite run_app.
  set (d1 := run drv d (bit_pulse (MOSI drv) (CLK drv) b)).
  assert (E : clk d1 = LOW /\ load d1 = load d /\ shreg d1 = b :: shreg d /\
              regs d1 = regs d /\ latched d1 = latched d).
  { subst d1. unfold run, bit_pulse. cbn [fold_left step].
    destruct (Z.eqb_spec (MOSI drv) (CS drv)); [contradiction |].
    destruct (Z.eqb_spec (MOSI drv) (CLK drv)); [contradiction |].
    destruct (Z.eqb_spec (CLK drv) (CS drv)); [contradiction |].
    rewrite !Z.eqb_refl. cbn. rewrite Hclk. cbn.
    destruct b; cbn; auto. }
  destruct E as (E1 & E2 & E3 & E4 & E5).
  destruct (IH d1 E1) as (I1 & I2 & I3 & I4 & I5).
  rewrite I1, I2, I3, I4, I5, E2, E3, E4, E5.
  cbn [rev]. rewrite <- app_assoc. cbn. auto.
Qed.

(** A call of [sendSPI] hands the device exactly one frame. *)
Lemma run_sendSPI d data instruction :
  clk d = LOW ->
  let d' := run drv d (trace (sendSPI drv data instruction)) in
  clk d' = LOW /\ load d' = HIGH /\
  regs d' = upd (regs d) (byte_cast instruction mod 16) (byte_cast data) /\
  latched d' = latched d ++ [(byte_cast instruction, byte_cast data)].
Proof.
  intros Hclk. cbn zeta. rewrite sendSPI_trace.
  change (DigitalWrite (CS drv) LOW :: ?l)
    with ([DigitalWrite (CS drv) LOW] ++ l).
  rewrite !run_app.
  set (d1 := run drv d [DigitalWrite (CS drv) LOW]).
  assert (E : clk d1 = LOW /\ load d1 = LOW /\ shreg d1 = shreg d /\
              regs d1 = regs d /\ latched d1 = latched d).
  { subst d1. unfold run. cbn [fold_left step]. rewrite Z.eqb_refl.
    unfold on_load. destruct (load d); cbn; auto. }
  destruct E as (E1 & E2 & E3 & E4 & E5).
  pose proof (run_pulses (bits_msb_first (byte_cast instruction)
                          ++ bits_msb_first (byte_cast data)) d1 E1) as R.
  cbn zeta in R.
  set (d2 := run drv d1 _) in *.
  destruct R as (R1 & R2 & R3 & R4 & R5).
  unfold run. cbn [fold_left step]. rewrite Z.eqb_refl.
  unfold on_load. rewrite R2, E2. cbn [rising level_eqb andb].
  cbn [clk load regs latched].
  assert (Fd : frame_data (shreg d2) = byte_cast data).
  { unfold frame_data. rewrite R3, rev_app_distr, <- app_assoc.
    rewrite firstn_app, firstn_all2 by (rewrite length_rev; cbn; lia).
    rewrite length_rev, bits_msb_first_length. cbn [Nat.sub firstn].
    rewrite app_nil_r. apply le_value_msb_first, byte_cast_range. }
  assert (Fi : frame_instruction (shreg d2) = byte_cast instruction).
  { unfold frame_instruction. rewrite R3, rev_app_distr, <- app_assoc.
    rewrite skipn_app, skipn_all2 by (rewrite length_rev; cbn; lia).
    rewrite length_rev, bits_msb_first_length. cbn [Nat.sub skipn app].
    rewrite firstn_app, firstn_all2 by (rewrite length_rev; cbn; lia).
    rewrite length_rev, bits_msb_first_length. cbn [Nat.sub firstn].
    rewrite app_nil_r. apply le_value_msb_first, byte_cast_range. }
  rewrite Fd, Fi, R1, R4, R5, E4, E5. auto.
Qed.

End Link.

(** ** Sequences of frames *)

Section Frames.

Variable drv : SegmentDriver.
Hypothesis pins : distinct_pins drv.

Import MAX7219.

Lemma sends_nil : sends drv [] [].
Proof. intros d H. cbn. rewrite app_nil_r. auto. Qed.

Lemma sends_app t1 t2 f1 f2 :
  sends drv t1 f1 -> sends drv t2 f2 -> sends drv (t1 ++ t2) (f1 ++ f2).
Proof.
  intros H1 H2 d Hd. rewrite run_app.
  destruct (H1 d Hd) as (A1 & A2 & A3).
  destruct (H2 _ A1) as (B1 & B2 & B3).
  rewrite B1, B2, B3, A2, A3. unfold store_frames.
  rewrite fold_left_app, app_assoc. auto.
Qed.

Lemma sends_sendSPI data instruction :
  sends drv (trace (sendSPI drv data instruction))
        [(byte_cast instruction, byte_cast data)].
Proof.
  intros d Hd. destruct (run_sendSPI drv pins d data instruction Hd)
    as (A1 & _ & A3 & A4).
  rewrite A1, A3, A4. auto.
Qed.

Lemma sends_for_loop (body : Z -> io unit) (fs : Z -> list (Z * Z)) n :
  forall i,
  (forall j, In j (zrange n i) -> sends drv (trace (body j)) (fs j)) ->
  sends drv (trace (for_loop n i body)) (flat_map fs (zrange n i)).
Proof.
  induction n as [| n IH]; intros i H; [apply sends_nil |].
  cbn [for_loop zrange flat_map]. rewrite trace_bind.
  apply sends_app.
  - apply H. left. reflexivity.
  - apply IH. intros j Hj. apply H. right. exact Hj.
Qed.

End Frames.

Lemma zrange_bounds n : forall i j,
  In j (zrange n i) -> i <= j < i + Z.of_nat n.
Proof.
  induction n as [| n IH]; intros i j H; [destruct H |].
  cbn [zrange] in H. destruct H as [<- | H]; [lia |].
  apply IH in H. lia.
Qed.

Lemma flat_map_single {A B} (f : A -> B) (l : list A) :
  flat_map (fun x => [f x]) l = map f l.
Proof. induction l as [| a l IH]; cbn; congruence. Qed.

(** ** The character table *)

Lemma asciiTableRef_length : List.length asciiTableRef = 46%nat.
Proof. reflexivity. Qed.

Lemma asciiTableRef_bytes : Forall (fun b => 0 <= b < 256) asciiTableRef.
Proof. repeat constructor; vm_compute; congruence. Qed.

Lemma glyph_range P chr : 0 <= glyph P chr < 256.
Proof.
  unfold glyph, pgm_read_byte_near.
  destruct (nth_error asciiTableRef (Z.to_nat (setChar_index chr)))
    as [b |] eqn:E.
  - apply nth_error_In in E.
    exact (proj1 (Forall_forall _ _) asciiTableRef_bytes b E).
  - apply byte_cast_range.
Qed.

Lemma setString_len_le P : setString_len P <= 8.
Proof.
  unfold setString_len. destruct (Z.gtb_spec (sizeof_String P) 9); lia.
Qed.

(** ** What [setChar], [setString] and [clear] send *)

Section Sends.

Variable P : platform.
Variable drv : SegmentDriver.
Hypothesis pins : distinct_pins drv.

Lemma sends_setChar place chr :
  sends drv (trace (setChar P drv place chr))
        [(byte_cast (place + 1), glyph P chr)].
Proof.
  unfold setChar. fold (glyph P chr).
  rewrite <- (byte_cast_small (glyph P chr)) at 2 by apply glyph_range.
  apply sends_sendSPI, pins.
Qed.

Lemma sends_setString s :
  sends drv (trace (setString P drv s)) (setString_frames P s).
Proof.
  unfold setString. rewrite trace_bind. cbn [trace ret snd].
  rewrite app_nil_r. unfold for_lt. rewrite Z.sub_0_r.
  unfold setString_frames. rewrite <- flat_map_single.
  apply sends_for_loop. intros j Hj.
  rewrite trace_bind. cbn [trace ret snd]. rewrite app_nil_r.
  apply zrange_bounds in Hj.
  pose proof (setString_len_le P) as Hl.
  replace (DISPLAY_LENGTH - j) with (byte_cast (DISPLAY_LENGTH - 1 - j + 1)).
  - apply sends_setChar.
  - unfold DISPLAY_LENGTH. rewrite byte_cast_small; lia.
Qed.

Lemma sends_clear :
  sends drv (trace (clear P drv))
        (flat_map (fun _ => setString_frames P "        ") (zrange 8 1)).
Proof.
  unfold clear, for_lt. change (Z.to_nat (DISPLAY_LENGTH + 1 - 1)) with 8%nat.
  apply sends_for_loop. intros j _.
  rewrite trace_bind. cbn [trace ret snd]. rewrite app_nil_r.
  apply sends_setString.
Qed.

End Sends.

Lemma setChar_result P drv place chr : result (setChar P drv place chr) = 0.
Proof. apply sendSPI_result. Qed.

Lemma setString_result P drv s : result (setString P drv s) = 0.
Proof. unfold setString. rewrite result_bind. reflexivity. Qed.

(* ================================================================== *)
(** * The operations against their specification *)

Lemma flat_map_const_pulses {A} (l : list A) :
  flat_map (fun _ => [HIGH; LOW]) l = clock_pulses (List.length l).
Proof.
  unfold clock_pulses. induction l as [| a l IH]; cbn; [reflexivity |].
  now rewrite IH.
Qed.

(** C5. Every call of the transmit primitive returns 0 and emits exactly
    two bytes.  Its fifty primitive calls are: the latch line low; sixteen
    bits, each the data line set and then one clock pulse, first the eight
    bits of the instruction byte from the most significant down, then the
    eight bits of the data byte from the most significant down; the latch
    line high.  With the three pins distinct, the latch line is written
    twice only (low, then high), the clock line gets sixteen pulses, and a
    device whose clock input starts low takes exactly one frame from the
    call: (instruction, data). *)
Theorem sendSPI_two_bytes_msb_first drv data instruction :
  let t := trace (sendSPI drv data instruction) in
  result (sendSPI drv data instruction) = 0 /\
  t = DigitalWrite (CS drv) LOW
      :: flat_map (bit_pulse (MOSI drv) (CLK drv))
           (bits_msb_first (byte_cast instruction)
            ++ bits_msb_first (byte_cast data))
      ++ [DigitalWrite (CS drv) HIGH] /\
  hd_error t = Some (DigitalWrite (CS drv) LOW) /\
  last t (Delay 0) = DigitalWrite (CS drv) HIGH /\
  (distinct_pins drv ->
   writes_to (CS drv) t = [LOW; HIGH] /\
   writes_to (CLK drv) t = clock_pulses 16 /\
   writes_to (MOSI drv) t
   = map level_of_bool (bits_msb_first (byte_cast instruction)
                        ++ bits_msb_first (byte_cast data)) /\
   forall d, MAX7219.clk d = LOW ->
     MAX7219.latched (MAX7219.run drv d t)
     = MAX7219.latched d ++ [(byte_cast instruction, byte_cast data)]).
Proof.
  intros t. subst t.
  split; [apply sendSPI_result |].
  split; [apply sendSPI_trace |].
  split; [rewrite sendSPI_trace; reflexivity |].
  split; [rewrite sendSPI_trace, app_comm_cons; apply last_last |].
  intros pins.
  split; [| split; [| split]].
  4: { intros d Hclk. apply (run_sendSPI drv pins d data instruction Hclk). }
  all: rewrite sendSPI_trace;
    change (DigitalWrite (CS drv) LOW :: ?l)
      with ([DigitalWrite (CS drv) LOW] ++ l);
    rewrite !writes_to_app;
    rewrite ?(writes_to_pulses_CS drv pins), ?(writes_to_pulses_CLK drv pins),
      ?(writes_to_pulses_MOSI drv pins);
    destruct pins as (H0 & H1 & H2);
    unfold writes_to; cbn [flat_map]; rewrite ?Z.eqb_refl;
    destruct (Z.eqb_spec (CS drv) (CLK drv)); try congruence;
    destruct (Z.eqb_spec (CS drv) (MOSI drv)); try congruence;
    cbn [app]; rewrite ?app_nil_r.
  - reflexivity.
  - apply flat_map_const_pulses.
  - reflexivity.
Qed.

Lemma sendSPI_two_bytes_msb_first_witness :
  MAX7219.latched
    (MAX7219.run uno_pins MAX7219.power_on (trace (sendSPI uno_pins 0xA5 0x1C)))
  = [(0x1C, 0xA5)].
Proof.
  apply (sendSPI_two_bytes_msb_first uno_pins 0xA5 0x1C).
  - unfold distinct_pins. cbn. repeat split; discriminate.
  - reflexivity.
Defined.

(** C4. [setBrightness] outside [0,15] and [setScanLimit] outside [0,7]
    return the error value -1 and touch no pin; inside the range each is
    the transmission of its value to the intensity, respectively scan-limit,
    register, returns 0, and the device takes that one frame. *)
Theorem setters_reject_out_of_range drv v :
  (v < 0 \/ 15 < v -> setBrightness drv v = (-1, [])) /\
  (v < 0 \/ 7 < v -> setScanLimit drv v = (-1, [])) /\
  (0 <= v <= 15 ->
     setBrightness drv v = sendSPI drv v CTRL_INTENSITY /\
     result (setBrightness drv v) = 0 /\
     (distinct_pins drv ->
      sends drv (trace (setBrightness drv v)) [(CTRL_INTENSITY, v)])) /\
  (0 <= v <= 7 ->
     setScanLimit drv v = sendSPI drv v CTRL_SCANLIMIT /\
     result (setScanLimit drv v) = 0 /\
     (distinct_pins drv ->
      sends drv (trace (setScanLimit drv v)) [(CTRL_SCANLIMIT, v)])).
Proof.
  unfold setBrightness, setScanLimit.
  split; [| split; [| split]].
  - intros H. destruct (Z.ltb_spec v 0), (Z.gtb_spec v 15);
      cbn [orb]; try reflexivity; lia.
  - intros H. destruct (Z.ltb_spec v 0), (Z.gtb_spec v 7);
      cbn [orb]; try reflexivity; lia.
  - intros H. destruct (Z.ltb_spec v 0), (Z.gtb_spec v 15);
      cbn [orb]; try lia.
    split; [reflexivity | split; [apply sendSPI_result |]].
    intros pins. rewrite <- (byte_cast_small v) at 2 by lia.
    apply (sends_sendSPI drv pins v CTRL_INTENSITY).
  - intros H. destruct (Z.ltb_spec v 0), (Z.gtb_spec v 7);
      cbn [orb]; try lia.
    split; [reflexivity | split; [apply sendSPI_result |]].
    intros pins. rewrite <- (byte_cast_small v) at 2 by lia.
    apply (sends_sendSPI drv pins v CTRL_SCANLIMIT).
Qed.

Lemma setters_reject_out_of_range_witness :
  setBrightness uno_pins 16 = (-1, []) /\
  setScanLimit uno_pins 8 = (-1, []) /\
  setScanLimit uno_pins (-1) = (-1, []) /\
  result (setBrightness uno_pins 15) = 0 /\
  result (setScanLimit uno_pins 7) = 0 /\
  sends uno_pins (trace (setBrightness uno_pins 3)) [(CTRL_INTENSITY, 3)].
Proof.
  assert (pins : distinct_pins uno_pins)
    by (unfold distinct_pins; cbn; repeat split; discriminate).
  split; [apply (setters_reject_out_of_range uno_pins 16); lia |].
  split; [apply (setters_reject_out_of_range uno_pins 8); lia |].
  split; [apply (setters_reject_out_of_range uno_pins (-1)); lia |].
  split; [apply (setters_reject_out_of_range uno_pins 15); lia |].
  split; [apply (setters_reject_out_of_range uno_pins 7); lia |].
  apply (setters_reject_out_of_range uno_pins 3); [lia | exact pins].
Defined.

Lemma setChar_index_lower chr :
  97 <= chr <= 122 -> setChar_index chr = chr - 32 - ASCII_OFFSET.
Proof.
  intros H. apply Z.eqb_eq.
  assert (E := byte_forall
           (fun c => if (97 <=? c) && (c <=? 122)
                     then setChar_index c =? c - 32 - ASCII_OFFSET else true)
           eq_refl chr ltac:(lia)).
  cbv beta in E.
  destruct (Z.leb_spec 97 chr), (Z.leb_spec chr 122);
    cbn [andb] in E; first [exact E | lia].
Qed.

Lemma setChar_index_upper chr :
  65 <= chr <= 90 -> setChar_index chr = chr - ASCII_OFFSET.
Proof.
  intros H. apply Z.eqb_eq.
  assert (E := byte_forall
           (fun c => if (65 <=? c) && (c <=? 90)
                     then setChar_index c =? c - ASCII_OFFSET else true)
           eq_refl chr ltac:(lia)).
  cbv beta in E.
  destruct (Z.leb_spec 65 chr), (Z.leb_spec chr 90);
    cbn [andb] in E; first [exact E | lia].
Qed.

(** C6. For a lowercase letter, at any position, [setChar] does exactly what
    it does for the uppercase letter: same primitive calls, same result.
    The pattern sent is the table entry of the uppercase letter. *)
Theorem setChar_lowercase_as_uppercase P drv place chr :
  97 <= chr <= 122 ->
  setChar P drv place chr = setChar P drv place (chr - 32) /\
  glyph P chr = glyph P (chr - 32) /\
  nth_error asciiTableRef (Z.to_nat (chr - 32 - ASCII_OFFSET))
  = Some (glyph P chr).
Proof.
  intros H.
  assert (E : setChar_index chr = setChar_index (chr - 32)).
  { rewrite setChar_index_lower by exact H.
    rewrite setChar_index_upper by lia. reflexivity. }
  unfold setChar, glyph. rewrite E.
  split; [reflexivity | split; [reflexivity |]].
  rewrite setChar_index_upper by lia.
  unfold pgm_read_byte_near.
  destruct (nth_error asciiTableRef (Z.to_nat (chr - 32 - ASCII_OFFSET)))
    as [b |] eqn:N; [reflexivity |].
  apply nth_error_None in N. rewrite asciiTableRef_length in N.
  unfold ASCII_OFFSET in N. lia.
Qed.

Lemma setChar_lowercase_as_uppercase_witness :
  setChar avr uno_pins 7 97 = setChar avr uno_pins 7 65 /\
  glyph avr 97 = glyph avr 65 /\
  nth_error asciiTableRef 20 = Some (glyph avr 97).
Proof. apply (setChar_lowercase_as_uppercase avr uno_pins 7 97). lia. Defined.

(** C8. For a position in [0,7] and any character value, [setChar] returns 0
    and sends one frame: the byte read from the table at the computed index,
    addressed to digit register position + 1.  [setString] returns 0 for
    every string. *)
Theorem setChar_setString_succeed P drv place chr s :
  0 <= place <= 7 ->
  result (setChar P drv place chr) = 0 /\
  result (setString P drv s) = 0 /\
  1 <= place + 1 <= 8 /\
  (distinct_pins drv ->
   sends drv (trace (setChar P drv place chr))
     [(place + 1, pgm_read_byte_near P (setChar_index chr))]).
Proof.
  intros H.
  split; [apply setChar_result |].
  split; [apply setString_result |].
  split; [lia |].
  intros pins. rewrite <- (byte_cast_small (place + 1)) by lia.
  apply (sends_setChar P drv pins).
Qed.

Lemma setChar_setString_succeed_witness :
  result (setChar avr uno_pins 0 56) = 0 /\
  result (setString avr uno_pins "HELLO") = 0 /\
  1 <= 0 + 1 <= 8 /\
  (distinct_pins uno_pins ->
   sends uno_pins (trace (setChar avr uno_pins 0 56))
     [(0 + 1, pgm_read_byte_near avr (setChar_index 56))]).
Proof.
  apply (setChar_setString_succeed avr uno_pins 0 56 "HELLO"). lia.
Defined.

Lemma store_frames_one r a v : store_frames r [(a, v)] (a mod 16) = v.
Proof. cbn. unfold MAX7219.upd. now rewrite Z.eqb_refl. Qed.

(** C10. [setChar] does not check its position: for every integer position
    it returns 0 and sends one frame whose instruction byte is position + 1
    truncated to 8 bits.  For positions 8 to 14 that byte is position + 1
    itself, between 0x09 and 0x0F; for positions 8, 9, 10, 11 and 14 it is
    the address of the decode-mode, intensity, scan-limit, shutdown and
    display-test register, and the device stores the character's pattern in
    that register. *)
Theorem setChar_position_unchecked P drv place chr :
  result (setChar P drv place chr) = 0 /\
  (distinct_pins drv ->
   sends drv (trace (setChar P drv place chr))
     [(byte_cast (place + 1), glyph P chr)]) /\
  (8 <= place <= 14 ->
   byte_cast (place + 1) = place + 1 /\
   CTRL_DECODEMODE <= place + 1 <= CTRL_DISPLAYTEST) /\
  (forall reg d,
     In (place, reg) control_positions ->
     distinct_pins drv -> MAX7219.clk d = LOW ->
     let d' := MAX7219.run drv d (trace (setChar P drv place chr)) in
     MAX7219.latched d' = MAX7219.latched d ++ [(reg, glyph P chr)] /\
     MAX7219.regs d' reg = glyph P chr).
Proof.
  split; [apply setChar_result |].
  split; [intros pins; apply (sends_setChar P drv pins) |].
  split.
  - intros H. unfold CTRL_DECODEMODE, CTRL_DISPLAYTEST.
    rewrite byte_cast_small by lia. lia.
  - intros reg d Hin pins Hclk d'. subst d'.
    destruct (sends_setChar P drv pins place chr d Hclk) as (_ & L & R).
    assert (E : byte_cast (place + 1) = reg /\ reg mod 16 = reg).
    { cbn in Hin.
      repeat (destruct Hin as [Hin | Hin];
              [injection Hin as <- <-; split; reflexivity |]).
      destruct Hin. }
    destruct E as (E1 & E2).
    rewrite E1 in L, R. rewrite L, R.
    split; [reflexivity |].
    pose proof (store_frames_one (MAX7219.regs d) reg (glyph P chr)) as S.
    rewrite E2 in S. exact S.
Qed.

Lemma setChar_position_unchecked_witness :
  MAX7219.regs
    (MAX7219.run uno_pins all_lit (trace (setChar avr uno_pins 9 56)))
    CTRL_INTENSITY = glyph avr 56.
Proof.
  apply (setChar_position_unchecked avr uno_pins 9 56).
  - cbn. right. left. reflexivity.
  - unfold distinct_pins. cbn. repeat split; discriminate.
  - reflexivity.
Defined.

(** ** The index guard of [setChar] *)

(** C1. The table has 46 entries, indices 0 to 45.  The character '[' (code
    91) has normalized index 46, one past the last entry; the guard
    [val > sizeof(asciiTableRef)] lets it through, so [setChar] keeps index
    46 instead of the blank index 2 and reads the byte that follows the
    table in program memory, which is what it transmits. *)
Theorem setChar_bracket_reads_past_table :
  List.length asciiTableRef = 46%nat /\
  normalized_index 91 = 46 /\
  setChar_index 91 = 46 /\
  nth_error asciiTableRef (Z.to_nat (setChar_index 91)) = None /\
  (forall P drv place,
     setChar P drv place 91
     = sendSPI drv (byte_cast (progmem_after P 0)) (place + 1)).
Proof. repeat split. Qed.

(** X1. Every other character value is handled as intended: the index stays
    inside the table, it is the blank index 2 when the normalized index is
    negative or past the table, and the normalized index itself otherwise. *)
Theorem setChar_index_in_table chr :
  0 <= chr < 256 -> chr <> 91 ->
  (exists b, nth_error asciiTableRef (Z.to_nat (setChar_index chr)) = Some b) /\
  (normalized_index chr < 0 \/ 45 < normalized_index chr ->
   setChar_index chr = 2) /\
  (0 <= normalized_index chr <= 45 ->
   setChar_index chr = normalized_index chr) /\
  nth_error asciiTableRef 2 = Some 0.
Proof.
  intros H N.
  assert (E := byte_forall (fun c => (c =? 91) || index_ok c) eq_refl chr H).
  cbv beta in E. apply orb_true_iff in E.
  destruct E as [E | E]; [apply Z.eqb_eq in E; contradiction |].
  unfold index_ok in E.
  destruct (nth_error asciiTableRef (Z.to_nat (setChar_index chr)))
    as [b |]; [| discriminate].
  split; [exists b; reflexivity |].
  destruct (Z.ltb_spec (normalized_index chr) 0),
    (Z.ltb_spec 45 (normalized_index chr));
    cbn [orb] in E; apply Z.eqb_eq in E;
    (split; [intros; first [exact E | lia]
            | split; [intros; first [exact E | lia] | reflexivity]]).
Qed.

Lemma setChar_index_in_table_witness :
  (exists b, nth_error asciiTableRef (Z.to_nat (setChar_index 32)) = Some b) /\
  (normalized_index 32 < 0 \/ 45 < normalized_index 32 ->
   setChar_index 32 = 2) /\
  (0 <= normalized_index 32 <= 45 ->
   setChar_index 32 = normalized_index 32) /\
  nth_error asciiTableRef 2 = Some 0.
Proof. apply (setChar_index_in_table 32); [lia | discriminate]. Defined.

(** ** How many characters [setString] renders *)

Lemma sendSPI_trace_length drv data instruction :
  List.length (trace (sendSPI drv data instruction)) = 50%nat.
Proof. rewrite sendSPI_trace. reflexivity. Qed.

Lemma for_loop_trace_length (body : Z -> io unit) k n : forall i,
  (forall j, List.length (trace (body j)) = k) ->
  List.length (trace (for_loop n i body)) = (n * k)%nat.
Proof.
  induction n as [| n IH]; intros i H; [reflexivity |].
  cbn [for_loop]. rewrite trace_bind, length_app, H, IH by exact H.
  reflexivity.
Qed.

Lemma setString_trace_length P drv s :
  List.length (trace (setString P drv s))
  = (Z.to_nat (setString_len P) * 50)%nat.
Proof.
  unfold setString. rewrite trace_bind. cbn [trace ret snd].
  rewrite app_nil_r. unfold for_lt. rewrite Z.sub_0_r.
  apply for_loop_trace_length. intros j.
  rewrite trace_bind. cbn [trace ret snd]. rewrite app_nil_r.
  apply sendSPI_trace_length.
Qed.

(** C2. [setString "AB"] on a display showing earlier content.  With a
    16-byte string object all eight digit registers are written, 'A' and
    'b' to digits 8 and 7 and the blank pattern to the six lower ones; with
    a 6-byte string object five are written.  In general the number of
    primitive calls is fixed by [sizeof(String)] and is the same for every
    string. *)
Theorem setString_AB_writes_by_object_size :
  MAX7219.latched
    (MAX7219.run uno_pins all_lit (trace (setString esp32 uno_pins "AB")))
  = [(8, 0x77); (7, 0x1F); (6, 0); (5, 0); (4, 0); (3, 0); (2, 0); (1, 0)] /\
  MAX7219.latched
    (MAX7219.run uno_pins all_lit (trace (setString avr uno_pins "AB")))
  = [(8, 0x77); (7, 0x1F); (6, 0); (5, 0); (4, 0)] /\
  (forall P drv s1 s2,
     List.length (trace (setString P drv s1))
     = List.length (trace (setString P drv s2))).
Proof.
  split; [vm_compute; reflexivity |].
  split; [vm_compute; reflexivity |].
  intros P drv s1 s2. now rewrite !setString_trace_length.
Qed.

(** C7. [setString "12345678"] with a 6-byte string object (8-bit AVR
    boards): only '1' to '5' are sent, to digits 8 down to 4; digit 1, the
    rightmost, keeps its earlier content and never shows '8'. *)
Theorem setString_12345678_avr_renders_five :
  let d := MAX7219.run uno_pins all_lit
             (trace (setString avr uno_pins "12345678")) in
  setString_len avr = 5 /\
  MAX7219.latched d
  = [(8, 0x30); (7, 0x6D); (6, 0x79); (5, 0x33); (4, 0x5B)] /\
  MAX7219.regs d (MAX7219.digit 0) = 255 /\
  glyph avr 56 = 0x7F.
Proof. vm_compute. repeat split. Qed.

(** C9. [clear] with a 6-byte string object: each of its eight calls of
    [setString] writes the blank pattern to digits 8 down to 4 only, so the
    three rightmost digits keep their earlier content. *)
Theorem clear_avr_leaves_three_digits :
  let d := MAX7219.run uno_pins all_lit (trace (clear avr uno_pins)) in
  map (fun p => MAX7219.regs d (MAX7219.digit p)) [7; 6; 5; 4; 3; 2; 1; 0]
  = [0; 0; 0; 0; 0; 255; 255; 255] /\
  map fst (MAX7219.latched d)
  = List.concat (repeat [8; 7; 6; 5; 4] 8).
Proof. vm_compute. repeat split. Qed.

(** ** Initialization *)

(** C3. The constructor makes the three pins outputs, drives the latch line
    high, then sends: display-test off, scan limit 7, intensity 15, shutdown
    off (power on); then runs [clear] and waits 1000 ms; nothing is printed.
    The intensity it sends, 15, is the largest value [setBrightness]
    accepts, not a low one. *)
Theorem SegmentDriver_new_sequence P pinDIN pinCLK pinCS :
  let drv := {| MOSI := pinDIN; CLK := pinCLK; CS := pinCS |} in
  result (SegmentDriver_new P pinDIN pinCLK pinCS) = drv /\
  trace (SegmentDriver_new P pinDIN pinCLK pinCS)
  = [PinMode pinDIN OUTPUT; PinMode pinCLK OUTPUT; PinMode pinCS OUTPUT;
     DigitalWrite pinCS HIGH]
    ++ trace (sendSPI drv 0 CTRL_DISPLAYTEST)
    ++ trace (sendSPI drv 7 CTRL_SCANLIMIT)
    ++ trace (sendSPI drv 15 CTRL_INTENSITY)
    ++ trace (sendSPI drv 1 CTRL_SHUTDOWN)
    ++ trace (clear P drv)
    ++ [Delay 1000] /\
  result (setBrightness drv 15) = 0 /\
  (forall v, result (setBrightness drv v) = 0 -> 0 <= v <= 15).
Proof.
  intros drv.
  assert (R : forall data i, result (sendSPI drv data i) = 0)
    by (intros; apply sendSPI_result).
  split; [| split; [| split]].
  - unfold SegmentDriver_new. fold drv. rewrite !result_bind. reflexivity.
  - unfold SegmentDriver_new. fold drv.
    change (setScanLimit drv 7) with (sendSPI drv 7 CTRL_SCANLIMIT).
    change (setBrightness drv 15) with (sendSPI drv 15 CTRL_INTENSITY).
    unfold turnOn.
    repeat (rewrite trace_bind; rewrite ?R).
    cbn [Z.eqb negb trace pinMode digitalWrite delay ret snd app].
    subst drv. cbn [MOSI CLK CS]. reflexivity.
  - apply R.
  - intros v. unfold setBrightness.
    destruct (Z.ltb_spec v 0), (Z.gtb_spec v 15); cbn [orb];
      try (cbn; discriminate). lia.
Qed.

(** The device after initialization from power-on, on a 32-bit board: the
    intensity register holds 15, the top of its range. *)
Lemma SegmentDriver_new_registers :
  let d := MAX7219.run uno_pins MAX7219.power_on
             (trace (SegmentDriver_new esp32 11 13 10)) in
  map (MAX7219.regs d)
      [CTRL_DISPLAYTEST; CTRL_SCANLIMIT; CTRL_INTENSITY; CTRL_SHUTDOWN]
  = [0; 7; 15; 1] /\
  map (fun p => MAX7219.regs d (MAX7219.digit p)) [7; 6; 5; 4; 3; 2; 1; 0]
  = [0; 0; 0; 0; 0; 0; 0; 0].
Proof. vm_compute. split; reflexivity. Qed.

(** ** Platforms whose string object has at least nine bytes *)

Lemma setString_len_large P : 9 <= sizeof_String P -> setString_len P = 8.
Proof.
  intros H. unfold setString_len.
  destruct (Z.gtb_spec (sizeof_String P) 9); lia.
Qed.

Lemma setString_frames_large P s :
  9 <= sizeof_String P ->
  setString_frames P s
  = map (fun i => (DISPLAY_LENGTH - i, glyph P (String_at s i)))
        [0; 1; 2; 3; 4; 5; 6; 7].
Proof.
  intros H. unfold setString_frames. now rewrite setString_len_large.
Qed.

(** X2. With [sizeof(String) >= 9], [setString "12345678"] sends the eight
    characters in order to digits 8 down to 1: '1' to position 7 and '8' to
    position 0. *)
Theorem setString_12345678_large_object P drv :
  9 <= sizeof_String P -> distinct_pins drv ->
  sends drv (trace (setString P drv "12345678"))
    [(MAX7219.digit 7, 0x30); (MAX7219.digit 6, 0x6D);
     (MAX7219.digit 5, 0x79); (MAX7219.digit 4, 0x33);
     (MAX7219.digit 3, 0x5B); (MAX7219.digit 2, 0x5F);
     (MAX7219.digit 1, 0x70); (MAX7219.digit 0, 0x7F)].
Proof.
  intros H pins.
  pose proof (sends_setString P drv pins "12345678") as S.
  rewrite setString_frames_large in S by exact H. exact S.
Qed.

Lemma setString_12345678_large_object_witness :
  sends uno_pins (trace (setString esp32 uno_pins "12345678"))
    [(8, 0x30); (7, 0x6D); (6, 0x79); (5, 0x33);
     (4, 0x5B); (3, 0x5F); (2, 0x70); (1, 0x7F)].
Proof.
  apply (setString_12345678_large_object esp32 uno_pins).
  - cbn. lia.
  - unfold distinct_pins. cbn. repeat split; discriminate.
Defined.

(** X3. With [sizeof(String) >= 9], after [clear] every one of the eight digit
    registers holds the blank pattern, whatever it held before. *)
Theorem clear_large_object_blanks_all P drv d p :
  9 <= sizeof_String P -> distinct_pins drv -> MAX7219.clk d = LOW ->
  0 <= p <= 7 ->
  MAX7219.regs (MAX7219.run drv d (trace (clear P drv))) (MAX7219.digit p) = 0.
Proof.
  intros H pins Hclk Hp.
  destruct (sends_clear P drv pins d Hclk) as (_ & _ & R).
  rewrite R, setString_frames_large by exact H.
  unfold MAX7219.digit.
  assert (C : p = 0 \/ p = 1 \/ p = 2 \/ p = 3 \/ p = 4 \/ p = 5 \/ p = 6
              \/ p = 7) by lia.
  repeat (destruct C as [-> | C]; [reflexivity |]). subst p. reflexivity.
Qed.

Lemma clear_large_object_blanks_all_witness :
  MAX7219.regs (MAX7219.run uno_pins all_lit (trace (clear esp32 uno_pins)))
    (MAX7219.digit 0) = 0.
Proof.
  apply (clear_large_object_blanks_all esp32 uno_pins all_lit 0).
  - cbn. lia.
  - unfold distinct_pins. cbn. repeat split; discriminate.
  - reflexivity.
  - lia.
Defined.

(** X4. [setString] places character [i] at position [DISPLAY_LENGTH - 1 - i],
    for [i] below a count that is at most 8 and does not depend on the
    string; positions past the end of the string get the blank pattern. *)
Theorem setString_right_to_left P drv s :
  distinct_pins drv ->
  setString_len P <= 8 /\
  sends drv (trace (setString P drv s))
    (map (fun i => (MAX7219.digit (DISPLAY_LENGTH - 1 - i),
                    glyph P (String_at s i)))
         (zrange (Z.to_nat (setString_len P)) 0)) /\
  (forall i, Z.of_nat (String.length s) <= i -> glyph P (String_at s i) = 0).
Proof.
  intros pins. split; [apply setString_len_le |]. split.
  - pose proof (sends_setString P drv pins s) as S.
    unfold setString_frames in S.
    erewrite map_ext; [exact S |].
    intros i. unfold MAX7219.digit. f_equal. lia.
  - intros i Hi. unfold String_at.
    destruct (Z.ltb_spec i 0); [reflexivity |].
    destruct (String.get (Z.to_nat i) s) as [c |] eqn:G; [| reflexivity].
    exfalso.
    assert (L : (String.length s <= Z.to_nat i)%nat) by lia.
    clear Hi H. revert L G. generalize (Z.to_nat i). clear i.
    induction s as [| a s IH]; intros n L G; [discriminate |].
    destruct n as [| n]; cbn in L; [lia |].
    cbn in G. apply (IH n); [lia | exact G].
Qed.

Lemma setString_right_to_left_witness :
  setString_len avr <= 8 /\
  sends uno_pins (trace (setString avr uno_pins "AB"))
    (map (fun i => (MAX7219.digit (DISPLAY_LENGTH - 1 - i),
                    glyph avr (String_at "AB" i)))
         (zrange (Z.to_nat (setString_len avr)) 0)) /\
  (forall i, Z.of_nat (String.length "AB") <= i ->
             glyph avr (String_at "AB" i) = 0).
Proof.
  apply (setString_right_to_left avr uno_pins "AB").
  unfold distinct_pins. cbn. repeat split; discriminate.
Defined.

(* ================================================================== *)
(** * Further properties of the driver *)

(** ** Register contents after a run of frames *)

Lemma store_frames_written fs : forall r x,
  store_frames r fs x
  = match written fs x with Some v => v | None => r x end.
Proof.
  induction fs as [| f fs IH]; intros r x; [reflexivity |].
  change (store_frames r (f :: fs))
    with (store_frames (MAX7219.upd r (fst f mod 16) (snd f)) fs).
  rewrite IH. cbn [written].
  destruct (written fs x); [reflexivity |].
  unfold MAX7219.upd. destruct (x =? fst f mod 16); reflexivity.
Qed.

Lemma written_app f1 f2 x :
  written (f1 ++ f2) x
  = match written f2 x with Some v => Some v | None => written f1 x end.
Proof.
  induction f1 as [| f f1 IH]; cbn [app written].
  - destruct (written f2 x); reflexivity.
  - rewrite IH. destruct (written f2 x); reflexivity.
Qed.

Lemma written_none fs x :
  (forall f, In f fs -> fst f mod 16 <> x) -> written fs x = None.
Proof.
  induction fs as [| f fs IH]; intros H; [reflexivity |].
  cbn [written]. rewrite IH by (intros g Hg; apply H; right; exact Hg).
  destruct (Z.eqb_spec x (fst f mod 16)) as [E | _]; [| reflexivity].
  exfalso. apply (H f); [left; reflexivity | congruence].
Qed.

Lemma written_flat_map_const {A} (g : list (Z * Z)) (l : list A) x :
  l <> [] -> written (flat_map (fun _ => g) l) x = written g x.
Proof.
  induction l as [| a l IH]; intros N; [congruence |].
  cbn [flat_map]. rewrite written_app.
  destruct l as [| b l].
  - cbn [flat_map written]. destruct (written g x); reflexivity.
  - rewrite IH by discriminate. destruct (written g x); reflexivity.
Qed.

(** ** The link stays at rest *)

Section Transmits.

Variable drv : SegmentDriver.
Hypothesis pins : distinct_pins drv.

Lemma transmits_nil : transmits drv [] [].
Proof. intros d H. cbn. rewrite app_nil_r. auto. Qed.

Lemma transmits_app t1 t2 f1 f2 :
  transmits drv t1 f1 -> transmits drv t2 f2 ->
  transmits drv (t1 ++ t2) (f1 ++ f2).
Proof.
  intros H1 H2 d Hd. rewrite run_app.
  destruct (H1 d Hd) as (A1 & A2 & A3).
  destruct (H2 _ A1) as (B1 & B2 & B3).
  rewrite B2, B3, A2, A3. unfold store_frames.
  rewrite fold_left_app, app_assoc. auto.
Qed.

Lemma transmits_sendSPI data instruction :
  transmits drv (trace (sendSPI drv data instruction))
            [(byte_cast instruction, byte_cast data)].
Proof.
  intros d (Hc & _).
  destruct (run_sendSPI drv pins d data instruction Hc)
    as (A1 & A2 & A3 & A4).
  rewrite A3, A4. unfold idle. auto.
Qed.

Lemma transmits_for_loop (body : Z -> io unit) (fs : Z -> list (Z * Z)) n :
  forall i,
  (forall j, In j (zrange n i) -> transmits drv (trace (body j)) (fs j)) ->
  transmits drv (trace (for_loop n i body)) (flat_map fs (zrange n i)).
Proof.
  induction n as [| n IH]; intros i H; [apply transmits_nil |].
  cbn [for_loop zrange flat_map]. rewrite trace_bind.
  apply transmits_app.
  - apply H. left. reflexivity.
  - apply IH. intros j Hj. apply H. right. exact Hj.
Qed.

Variable P : platform.

Lemma transmits_setChar place chr :
  transmits drv (trace (setChar P drv place chr))
            [(byte_cast (place + 1), glyph P chr)].
Proof.
  unfold setChar. fold (glyph P chr).
  rewrite <- (byte_cast_small (glyph P chr)) at 2 by apply glyph_range.
  apply transmits_sendSPI.
Qed.

Lemma transmits_setString s :
  transmits drv (trace (setString P drv s)) (setString_frames P s).
Proof.
  unfold setString. rewrite trace_bind. cbn [trace ret snd].
  rewrite app_nil_r. unfold for_lt. rewrite Z.sub_0_r.
  unfold setString_frames. rewrite <- flat_map_single.
  apply transmits_for_loop. intros j Hj.
  rewrite trace_bind. cbn [trace ret snd]. rewrite app_nil_r.
  apply zrange_bounds in Hj.
  pose proof (setString_len_le P) as Hl.
  replace (DISPLAY_LENGTH - j) with (byte_cast (DISPLAY_LENGTH - 1 - j + 1)).
  - apply transmits_setChar.
  - unfold DISPLAY_LENGTH. rewrite byte_cast_small; lia.
Qed.

Lemma transmits_clear :
  transmits drv (trace (clear P drv)) (clear_frames P).
Proof.
  unfold clear, for_lt, clear_frames.
  change (Z.to_nat (DISPLAY_LENGTH + 1 - 1)) with 8%nat.
  apply transmits_for_loop. intros j _.
  rewrite trace_bind. cbn [trace ret snd]. rewrite app_nil_r.
  apply transmits_setString.
Qed.

End Transmits.

(** The frames of [setString] and of [clear] address digit registers only. *)
Lemma setString_frames_digits P s f :
  In f (setString_frames P s) ->
  1 <= fst f <= 8 /\ fst f mod 16 = fst f.
Proof.
  unfold setString_frames. intros H. apply in_map_iff in H.
  destruct H as (i & <- & Hi). apply zrange_bounds in Hi.
  pose proof (setString_len_le P). cbn [fst]. unfold DISPLAY_LENGTH.
  split; [lia |]. apply Z.mod_small. lia.
Qed.

Lemma clear_frames_digits P f :
  In f (clear_frames P) -> 1 <= fst f <= 8 /\ fst f mod 16 = fst f.
Proof.
  unfold clear_frames. intros H. apply in_flat_map in H.
  destruct H as (j & _ & H). exact (setString_frames_digits P _ f H).
Qed.

Lemma store_frames_single r a v x :
  0 <= a < 16 ->
  store_frames r [(a, v)] x = if x =? a then v else r x.
Proof.
  intros H. cbn. unfold MAX7219.upd. now rewrite Z.mod_small by exact H.
Qed.

(** ** Power control *)

(** X6. [turnOff] and [turnOn] each return 0 and send one frame to the
    shutdown register, 0 and 1.  Switching the display off and on again
    leaves 1 in the shutdown register and changes no other register: digit
    contents, intensity and scan limit survive the cycle, and the link is at
    rest afterwards. *)
Theorem turnOff_turnOn_keeps_display drv d :
  distinct_pins drv -> idle d ->
  let d1 := MAX7219.run drv d (trace (turnOff drv)) in
  let d2 := MAX7219.run drv d1 (trace (turnOn drv)) in
  result (turnOff drv) = 0 /\ result (turnOn drv) = 0 /\
  MAX7219.regs d1 CTRL_SHUTDOWN = 0 /\
  MAX7219.regs d2 CTRL_SHUTDOWN = 1 /\
  (forall a, a <> CTRL_SHUTDOWN ->
     MAX7219.regs d1 a = MAX7219.regs d a /\
     MAX7219.regs d2 a = MAX7219.regs d a) /\
  MAX7219.latched d2
  = MAX7219.latched d ++ [(CTRL_SHUTDOWN, 0); (CTRL_SHUTDOWN, 1)] /\
  idle d2.
Proof.
  intros pins Hd d1 d2.
  destruct (transmits_sendSPI drv pins 0 CTRL_SHUTDOWN d Hd) as (I1 & L1 & R1).
  fold (turnOff drv) in I1, L1, R1. fold d1 in I1, L1, R1.
  destruct (transmits_sendSPI drv pins 1 CTRL_SHUTDOWN d1 I1)
    as (I2 & L2 & R2).
  fold (turnOn drv) in I2, L2, R2. fold d2 in I2, L2, R2.
  change (byte_cast CTRL_SHUTDOWN) with CTRL_SHUTDOWN in *.
  change (byte_cast 0) with 0 in *. change (byte_cast 1) with 1 in *.
  assert (B : 0 <= CTRL_SHUTDOWN < 16) by (unfold CTRL_SHUTDOWN; lia).
  split; [apply sendSPI_result |]. split; [apply sendSPI_result |].
  split; [rewrite R1, store_frames_single, Z.eqb_refl by exact B;
          reflexivity |].
  split; [rewrite R2, store_frames_single, Z.eqb_refl by exact B;
          reflexivity |].
  split.
  - intros a Ha. rewrite R2, R1, !store_frames_single by exact B.
    destruct (Z.eqb_spec a CTRL_SHUTDOWN); [contradiction | auto].
  - split; [| exact I2]. rewrite L2, L1, <- app_assoc. reflexivity.
Qed.

Lemma turnOff_turnOn_keeps_display_witness :
  let d1 := MAX7219.run uno_pins all_lit (trace (turnOff uno_pins)) in
  let d2 := MAX7219.run uno_pins d1 (trace (turnOn uno_pins)) in
  MAX7219.regs d2 CTRL_SHUTDOWN = 1 /\ MAX7219.regs d2 (MAX7219.digit 3) = 255.
Proof.
  assert (pins : distinct_pins uno_pins)
    by (unfold distinct_pins; cbn; repeat split; discriminate).
  assert (I : idle all_lit) by (split; reflexivity).
  pose proof (turnOff_turnOn_keeps_display uno_pins all_lit pins I) as H.
  cbv zeta in H. destruct H as (_ & _ & _ & H1 & H2 & _).
  split; [exact H1 |].
  exact (proj2 (H2 (MAX7219.digit 3) ltac:(discriminate))).
Defined.

(** ** What one operation changes in the device *)

(** X7. For a position in [0,7], [setChar] stores the character's pattern in
    digit register position + 1 and changes no other register, control
    registers included; the link is at rest afterwards. *)
Theorem setChar_changes_one_digit P drv place chr d :
  distinct_pins drv -> idle d -> 0 <= place <= 7 ->
  let d' := MAX7219.run drv d (trace (setChar P drv place chr)) in
  MAX7219.regs d' (MAX7219.digit place) = glyph P chr /\
  (forall a, a <> MAX7219.digit place ->
     MAX7219.regs d' a = MAX7219.regs d a) /\
  idle d'.
Proof.
  intros pins Hd Hp d'.
  destruct (transmits_setChar drv pins P place chr d Hd) as (I & _ & R).
  fold d' in I, R. unfold MAX7219.digit.
  rewrite byte_cast_small in R by lia.
  split; [rewrite R, store_frames_single, Z.eqb_refl by lia; reflexivity |].
  split; [| exact I].
  intros a Ha. rewrite R, store_frames_single by lia.
  destruct (Z.eqb_spec a (place + 1)); [contradiction | reflexivity].
Qed.

Lemma setChar_changes_one_digit_witness :
  let d' := MAX7219.run uno_pins all_lit (trace (setChar avr uno_pins 2 65)) in
  MAX7219.regs d' (MAX7219.digit 2) = glyph avr 65 /\
  (forall a, a <> MAX7219.digit 2 ->
     MAX7219.regs d' a = MAX7219.regs all_lit a) /\
  idle d'.
Proof.
  apply (setChar_changes_one_digit avr uno_pins 2 65 all_lit).
  - unfold distinct_pins. cbn. repeat split; discriminate.
  - split; reflexivity.
  - lia.
Defined.

(** X8. Two [setChar] calls at different positions of [0,7] commute: in
    either order every register ends with the same content. *)
Theorem setChar_positions_commute P drv p q c1 c2 d x :
  distinct_pins drv -> idle d -> 0 <= p <= 7 -> 0 <= q <= 7 -> p <> q ->
  MAX7219.regs
    (MAX7219.run drv (MAX7219.run drv d (trace (setChar P drv p c1)))
       (trace (setChar P drv q c2))) x
  = MAX7219.regs
      (MAX7219.run drv (MAX7219.run drv d (trace (setChar P drv q c2)))
         (trace (setChar P drv p c1))) x.
Proof.
  intros pins Hd Hp Hq N.
  destruct (transmits_setChar drv pins P p c1 d Hd) as (I1 & _ & R1).
  destruct (transmits_setChar drv pins P q c2 _ I1) as (_ & _ & R12).
  destruct (transmits_setChar drv pins P q c2 d Hd) as (I2 & _ & R2).
  destruct (transmits_setChar drv pins P p c1 _ I2) as (_ & _ & R21).
  rewrite R12, R1, R21, R2.
  rewrite !byte_cast_small by lia. rewrite !store_frames_single by lia.
  destruct (Z.eqb_spec x (q + 1)), (Z.eqb_spec x (p + 1));
    try reflexivity; lia.
Qed.

Lemma setChar_positions_commute_witness :
  MAX7219.regs
    (MAX7219.run uno_pins
       (MAX7219.run uno_pins all_lit (trace (setChar avr uno_pins 0 49)))
       (trace (setChar avr uno_pins 7 50))) 8
  = MAX7219.regs
      (MAX7219.run uno_pins
         (MAX7219.run uno_pins all_lit (trace (setChar avr uno_pins 7 50)))
         (trace (setChar avr uno_pins 0 49))) 8.
Proof.
  apply (setChar_positions_commute avr uno_pins 0 7 49 50 all_lit 8).
  - unfold distinct_pins. cbn. repeat split; discriminate.
  - split; reflexivity.
  - lia.
  - lia.
  - discriminate.
Defined.

(** X9. A valid [setBrightness] stores its value in the intensity register,
    a valid [setScanLimit] in the scan-limit register, and neither changes
    any other register; a rejected call leaves the device as it was. *)
Theorem setters_change_one_register drv v d :
  distinct_pins drv -> idle d ->
  (0 <= v <= 15 ->
   let d' := MAX7219.run drv d (trace (setBrightness drv v)) in
   MAX7219.regs d' CTRL_INTENSITY = v /\
   (forall a, a <> CTRL_INTENSITY -> MAX7219.regs d' a = MAX7219.regs d a) /\
   idle d') /\
  (0 <= v <= 7 ->
   let d' := MAX7219.run drv d (trace (setScanLimit drv v)) in
   MAX7219.regs d' CTRL_SCANLIMIT = v /\
   (forall a, a <> CTRL_SCANLIMIT -> MAX7219.regs d' a = MAX7219.regs d a) /\
   idle d') /\
  (v < 0 \/ 15 < v -> MAX7219.run drv d (trace (setBrightness drv v)) = d) /\
  (v < 0 \/ 7 < v -> MAX7219.run drv d (trace (setScanLimit drv v)) = d).
Proof.
  intros pins Hd. unfold setBrightness, setScanLimit.
  split; [| split; [| split]].
  - intros H. destruct (Z.ltb_spec v 0), (Z.gtb_spec v 15); cbn [orb]; try lia.
    destruct (transmits_sendSPI drv pins v CTRL_INTENSITY d Hd) as (I & _ & R).
    cbv zeta. rewrite R. rewrite (byte_cast_small v) by lia.
    change (byte_cast CTRL_INTENSITY) with CTRL_INTENSITY.
    assert (B : 0 <= CTRL_INTENSITY < 16) by (unfold CTRL_INTENSITY; lia).
    split; [rewrite store_frames_single, Z.eqb_refl by exact B; reflexivity |].
    split; [| exact I].
    intros a Ha. rewrite store_frames_single by exact B.
    destruct (Z.eqb_spec a CTRL_INTENSITY); [contradiction | reflexivity].
  - intros H. destruct (Z.ltb_spec v 0), (Z.gtb_spec v 7); cbn [orb]; try lia.
    destruct (transmits_sendSPI drv pins v CTRL_SCANLIMIT d Hd) as (I & _ & R).
    cbv zeta. rewrite R. rewrite (byte_cast_small v) by lia.
    change (byte_cast CTRL_SCANLIMIT) with CTRL_SCANLIMIT.
    assert (B : 0 <= CTRL_SCANLIMIT < 16) by (unfold CTRL_SCANLIMIT; lia).
    split; [rewrite store_frames_single, Z.eqb_refl by exact B; reflexivity |].
    split; [| exact I].
    intros a Ha. rewrite store_frames_single by exact B.
    destruct (Z.eqb_spec a CTRL_SCANLIMIT); [contradiction | reflexivity].
  - intros H. destruct (Z.ltb_spec v 0), (Z.gtb_spec v 15); cbn [orb];
      try reflexivity; lia.
  - intros H. destruct (Z.ltb_spec v 0), (Z.gtb_spec v 7); cbn [orb];
      try reflexivity; lia.
Qed.

Lemma setters_change_one_register_witness :
  let d' := MAX7219.run uno_pins all_lit (trace (setBrightness uno_pins 4)) in
  MAX7219.regs d' CTRL_INTENSITY = 4 /\
  (forall a, a <> CTRL_INTENSITY ->
     MAX7219.regs d' a = MAX7219.regs all_lit a) /\
  idle d'.
Proof.
  assert (pins : distinct_pins uno_pins)
    by (unfold distinct_pins; cbn; repeat split; discriminate).
  assert (I : idle all_lit) by (split; reflexivity).
  pose proof (setters_change_one_register uno_pins 4 all_lit pins I) as H.
  destruct H as (H & _). exact (H ltac:(lia)).
Defined.

(** X10. [setString] and [clear] write digit registers only: for every
    string and every size of the string object, each frame they send is
    addressed to a register in 1..8, and every register outside 1..8
    (decode mode, intensity, scan limit, shutdown, display test) keeps its
    content. *)
Theorem setString_clear_keep_control_registers P drv s d a :
  distinct_pins drv -> idle d -> ~ 1 <= a <= 8 ->
  let ds := MAX7219.run drv d (trace (setString P drv s)) in
  let dc := MAX7219.run drv d (trace (clear P drv)) in
  MAX7219.regs ds a = MAX7219.regs d a /\
  MAX7219.regs dc a = MAX7219.regs d a /\
  (exists fs, MAX7219.latched ds = MAX7219.latched d ++ fs /\
              Forall (fun f => 1 <= fst f <= 8) fs) /\
  (exists fs, MAX7219.latched dc = MAX7219.latched d ++ fs /\
              Forall (fun f => 1 <= fst f <= 8) fs).
Proof.
  intros pins Hd Ha ds dc.
  destruct (transmits_setString drv pins P s d Hd) as (_ & Ls & Rs).
  destruct (transmits_clear drv pins P d Hd) as (_ & Lc & Rc).
  fold ds in Ls, Rs. fold dc in Lc, Rc.
  split; [| split; [| split]].
  - rewrite Rs, store_frames_written, written_none; [reflexivity |].
    intros f Hf. apply setString_frames_digits in Hf.
    destruct Hf as (H1 & ->). intros E. apply Ha. rewrite <- E. exact H1.
  - rewrite Rc, store_frames_written, written_none; [reflexivity |].
    intros f Hf. apply clear_frames_digits in Hf.
    destruct Hf as (H1 & ->). intros E. apply Ha. rewrite <- E. exact H1.
  - exists (setString_frames P s). split; [exact Ls |].
    apply Forall_forall. intros f Hf.
    apply setString_frames_digits in Hf. lia.
  - exists (clear_frames P). split; [exact Lc |].
    apply Forall_forall. intros f Hf.
    apply clear_frames_digits in Hf. lia.
Qed.

Lemma setString_clear_keep_control_registers_witness :
  MAX7219.regs
    (MAX7219.run uno_pins all_lit (trace (setString esp32 uno_pins "HELLO")))
    CTRL_INTENSITY
  = MAX7219.regs all_lit CTRL_INTENSITY.
Proof.
  assert (pins : distinct_pins uno_pins)
    by (unfold distinct_pins; cbn; repeat split; discriminate).
  assert (I : idle all_lit) by (split; reflexivity).
  assert (A : ~ 1 <= CTRL_INTENSITY <= 8) by (unfold CTRL_INTENSITY; lia).
  pose proof (setString_clear_keep_control_registers
                esp32 uno_pins "HELLO" all_lit CTRL_INTENSITY pins I A) as H.
  cbv zeta in H. destruct H as (H & _). exact H.
Defined.

Lemma setString_frames_length P s :
  List.length (setString_frames P s) = Z.to_nat (setString_len P).
Proof.
  unfold setString_frames. rewrite length_map.
  generalize 0. induction (Z.to_nat (setString_len P)) as [| n IH];
    intros i; cbn; auto.
Qed.

(** X11. The eight rounds of [clear] are redundant: every register ends
    with what a single [setString] of eight spaces leaves in it, while
    [clear] makes eight times as many primitive calls; running [clear] a
    second time changes no register. *)
Theorem clear_is_one_setString_of_spaces P drv d x :
  distinct_pins drv -> idle d ->
  let dc := MAX7219.run drv d (trace (clear P drv)) in
  MAX7219.regs dc x
  = MAX7219.regs (MAX7219.run drv d (trace (setString P drv "        "))) x /\
  List.length (trace (clear P drv))
  = (8 * List.length (trace (setString P drv "        ")))%nat /\
  MAX7219.regs (MAX7219.run drv dc (trace (clear P drv))) x
  = MAX7219.regs dc x.
Proof.
  intros pins Hd dc.
  destruct (transmits_clear drv pins P d Hd) as (Ic & _ & Rc).
  destruct (transmits_setString drv pins P "        " d Hd) as (_ & _ & Rs).
  destruct (transmits_clear drv pins P _ Ic) as (_ & _ & Rcc).
  fold dc in Ic, Rc, Rcc.
  assert (W : written (clear_frames P) x
              = written (setString_frames P "        ") x).
  { unfold clear_frames. apply written_flat_map_const. discriminate. }
  split; [| split].
  - rewrite Rc, Rs, !store_frames_written, W. reflexivity.
  - unfold clear, for_lt.
    change (Z.to_nat (DISPLAY_LENGTH + 1 - 1)) with 8%nat.
    apply for_loop_trace_length. intros j.
    rewrite trace_bind. cbn [trace ret snd]. now rewrite app_nil_r.
  - rewrite Rcc, store_frames_written, Rc, store_frames_written.
    destruct (written (clear_frames P) x); reflexivity.
Qed.

Lemma clear_is_one_setString_of_spaces_witness :
  let dc := MAX7219.run uno_pins all_lit (trace (clear avr uno_pins)) in
  MAX7219.regs dc 8
  = MAX7219.regs
      (MAX7219.run uno_pins all_lit (trace (setString avr uno_pins "        ")))
      8 /\
  List.length (trace (clear avr uno_pins))
  = (8 * List.length (trace (setString avr uno_pins "        ")))%nat /\
  MAX7219.regs (MAX7219.run uno_pins dc (trace (clear avr uno_pins))) 8
  = MAX7219.regs dc 8.
Proof.
  assert (pins : distinct_pins uno_pins)
    by (unfold distinct_pins; cbn; repeat split; discriminate).
  assert (I : idle all_lit) by (split; reflexivity).
  exact (clear_is_one_setString_of_spaces avr uno_pins all_lit 8 pins I).
Defined.

(** X12. Every operation leaves the link at rest: started with the clock
    line low and the latch line high, each of [turnOn], [turnOff],
    [setBrightness], [setScanLimit], [setChar], [setString] and [clear]
    ends with the clock line low and the latch line high, for all
    arguments. *)
Theorem operations_leave_link_idle P drv d v place chr s :
  distinct_pins drv -> idle d ->
  idle (MAX7219.run drv d (trace (turnOn drv))) /\
  idle (MAX7219.run drv d (trace (turnOff drv))) /\
  idle (MAX7219.run drv d (trace (setBrightness drv v))) /\
  idle (MAX7219.run drv d (trace (setScanLimit drv v))) /\
  idle (MAX7219.run drv d (trace (setChar P drv place chr))) /\
  idle (MAX7219.run drv d (trace (setString P drv s))) /\
  idle (MAX7219.run drv d (trace (clear P drv))).
Proof.
  intros pins Hd.
  split; [apply (transmits_sendSPI drv pins 1 CTRL_SHUTDOWN d Hd) |].
  split; [apply (transmits_sendSPI drv pins 0 CTRL_SHUTDOWN d Hd) |].
  split.
  { unfold setBrightness. destruct ((v <? 0) || (v >? 15)); [exact Hd |].
    apply (transmits_sendSPI drv pins v CTRL_INTENSITY d Hd). }
  split.
  { unfold setScanLimit. destruct ((v <? 0) || (v >? 7)); [exact Hd |].
    apply (transmits_sendSPI drv pins v CTRL_SCANLIMIT d Hd). }
  split; [apply (transmits_setChar drv pins P place chr d Hd) |].
  split; [apply (transmits_setString drv pins P s d Hd) |].
  apply (transmits_clear drv pins P d Hd).
Qed.

Lemma operations_leave_link_idle_witness :
  idle (MAX7219.run uno_pins all_lit (trace (clear avr uno_pins))).
Proof.
  assert (pins : distinct_pins uno_pins)
    by (unfold distinct_pins; cbn; repeat split; discriminate).
  assert (I : idle all_lit) by (split; reflexivity).
  pose proof (operations_leave_link_idle
                avr uno_pins all_lit 0 0 0 "" pins I) as H.
  destruct H as (_ & _ & _ & _ & _ & _ & H). exact H.
Defined.

(** ** The device after construction *)

Lemma SegmentDriver_new_trace P pinDIN pinCLK pinCS :
  let drv := {| MOSI := pinDIN; CLK := pinCLK; CS := pinCS |} in
  trace (SegmentDriver_new P pinDIN pinCLK pinCS)
  = [PinMode pinDIN OUTPUT; PinMode pinCLK OUTPUT; PinMode pinCS OUTPUT;
     DigitalWrite pinCS HIGH]
    ++ trace (sendSPI drv 0 CTRL_DISPLAYTEST)
    ++ trace (sendSPI drv 7 CTRL_SCANLIMIT)
    ++ trace (sendSPI drv 15 CTRL_INTENSITY)
    ++ trace (sendSPI drv 1 CTRL_SHUTDOWN)
    ++ trace (clear P drv)
    ++ [Delay 1000].
Proof.
  intros drv.
  assert (R : forall data i, result (sendSPI drv data i) = 0)
    by (intros; apply sendSPI_result).
  unfold SegmentDriver_new. fold drv.
  change (setScanLimit drv 7) with (sendSPI drv 7 CTRL_SCANLIMIT).
  change (setBrightness drv 15) with (sendSPI drv 15 CTRL_INTENSITY).
  unfold turnOn.
  repeat (rewrite trace_bind; rewrite ?R).
  cbn [Z.eqb negb trace pinMode digitalWrite delay ret snd app].
  subst drv. cbn [MOSI CLK CS]. reflexivity.
Qed.

Lemma transmits_config_and_clear P drv :
  distinct_pins drv ->
  transmits drv
    (trace (sendSPI drv 0 CTRL_DISPLAYTEST)
     ++ trace (sendSPI drv 7 CTRL_SCANLIMIT)
     ++ trace (sendSPI drv 15 CTRL_INTENSITY)
     ++ trace (sendSPI drv 1 CTRL_SHUTDOWN)
     ++ trace (clear P drv)
     ++ [Delay 1000])
    (config_frames ++ clear_frames P).
Proof.
  intros pins.
  change config_frames
    with ([(byte_cast CTRL_DISPLAYTEST, byte_cast 0)]
          ++ [(byte_cast CTRL_SCANLIMIT, byte_cast 7)]
          ++ [(byte_cast CTRL_INTENSITY, byte_cast 15)]
          ++ [(byte_cast CTRL_SHUTDOWN, byte_cast 1)]).
  rewrite <- !app_assoc.
  repeat (apply transmits_app; [apply transmits_sendSPI, pins |]).
  rewrite <- (app_nil_r (clear_frames P)).
  apply transmits_app; [apply transmits_clear, pins |].
  intros d Hd. cbn. rewrite app_nil_r. auto.
Qed.

Lemma written_config_and_clear P x v :
  In (x, v) config_frames ->
  written (config_frames ++ clear_frames P) x = Some v.
Proof.
  intros H. rewrite written_app, written_none.
  - cbn in H.
    repeat (destruct H as [H | H]; [injection H as <- <-; reflexivity |]).
    destruct H.
  - intros f Hf. apply clear_frames_digits in Hf.
    destruct Hf as (H1 & ->). intros E. rewrite E in H1. cbn in H.
    repeat (destruct H as [H | H];
            [injection H as <- _;
             unfold CTRL_DISPLAYTEST, CTRL_SCANLIMIT, CTRL_INTENSITY,
               CTRL_SHUTDOWN in H1; lia |]).
    destruct H.
Qed.

(** X13. After construction, whatever the registers held before and
    whatever the size of the string object, the display-test register holds
    0, the scan-limit register 7, the intensity register 15 and the shutdown
    register 1, and the link is at rest.  If the latch line was already high
    the device has taken exactly the four configuration frames followed by
    the frames of [clear], and the decode-mode register, which the driver
    never writes, still holds what it held. *)
Theorem SegmentDriver_new_configures P pinDIN pinCLK pinCS d :
  let drv := {| MOSI := pinDIN; CLK := pinCLK; CS := pinCS |} in
  distinct_pins drv -> MAX7219.clk d = LOW ->
  let d' := MAX7219.run drv d (trace (SegmentDriver_new P pinDIN pinCLK pinCS)) in
  MAX7219.regs d' CTRL_DISPLAYTEST = 0 /\
  MAX7219.regs d' CTRL_SCANLIMIT = 7 /\
  MAX7219.regs d' CTRL_INTENSITY = 15 /\
  MAX7219.regs d' CTRL_SHUTDOWN = 1 /\
  idle d' /\
  (MAX7219.load d = HIGH ->
   MAX7219.latched d'
   = MAX7219.latched d ++ config_frames ++ clear_frames P /\
   MAX7219.regs d' CTRL_DECODEMODE = MAX7219.regs d CTRL_DECODEMODE).
Proof.
  intros drv pins Hclk d'. subst d'.
  rewrite SegmentDriver_new_trace. fold drv. rewrite run_app.
  set (d1 := MAX7219.run drv d _).
  assert (E : idle d1 /\
              (MAX7219.load d = HIGH ->
               MAX7219.regs d1 = MAX7219.regs d /\
               MAX7219.latched d1 = MAX7219.latched d)).
  { subst d1. unfold MAX7219.run. cbn [fold_left MAX7219.step].
    change (CS drv) with pinCS. rewrite Z.eqb_refl.
    unfold MAX7219.on_load, idle. destruct d as [di ck ld sr rg lt].
    cbn in Hclk |- *. subst ck.
    destruct ld; cbn; split; auto; intros; discriminate. }
  destruct E as (I1 & E).
  destruct (transmits_config_and_clear P drv pins d1 I1) as (I & L & R).
  assert (W : forall x v, In (x, v) config_frames ->
              store_frames (MAX7219.regs d1)
                (config_frames ++ clear_frames P) x = v).
  { intros x v H.
    rewrite store_frames_written, (written_config_and_clear P x v H).
    reflexivity. }
  rewrite R.
  split; [apply W; cbn; auto |].
  split; [apply W; cbn; auto |].
  split; [apply W; cbn; auto 6 |].
  split; [apply W; cbn; auto 6 |].
  split; [exact I |].
  intros Hl. destruct (E Hl) as (E1 & E2).
  rewrite L, E1, E2. split; [reflexivity |].
  rewrite store_frames_written, written_app, written_none; [reflexivity |].
  intros f Hf. apply clear_frames_digits in Hf.
  destruct Hf as (H1 & ->). unfold CTRL_DECODEMODE. lia.
Qed.

Lemma SegmentDriver_new_configures_witness :
  MAX7219.regs
    (MAX7219.run uno_pins all_lit (trace (SegmentDriver_new avr 11 13 10)))
    CTRL_INTENSITY = 15.
Proof.
  assert (pins : distinct_pins uno_pins)
    by (unfold distinct_pins; cbn; repeat split; discriminate).
  pose proof (SegmentDriver_new_configures avr 11 13 10 all_lit pins eq_refl)
    as H.
  cbv zeta in H. destruct H as (_ & _ & H & _). exact H.
Defined.

(** ** Which characters of a string matter *)

Lemma for_loop_ext (b1 b2 : Z -> io unit) n : forall i,
  (forall j, In j (zrange n i) -> b1 j = b2 j) ->
  for_loop n i b1 = for_loop n i b2.
Proof.
  induction n as [| n IH]; intros i H; [reflexivity |].
  cbn [for_loop]. rewrite (H i) by (left; reflexivity).
  rewrite (IH (i + 1)) by (intros j Hj; apply H; right; exact Hj).
  reflexivity.
Qed.

Lemma setString_ext P drv s1 s2 :
  (forall i, 0 <= i < 8 ->
     setChar_index (String_at s1 i) = setChar_index (String_at s2 i)) ->
  setString P drv s1 = setString P drv s2.
Proof.
  intros H. unfold setString, for_lt. f_equal.
  apply for_loop_ext. intros j Hj. apply zrange_bounds in Hj.
  pose proof (setString_len_le P).
  unfold setChar. rewrite H by lia. reflexivity.
Qed.

Lemma String_get_past_end s : forall n,
  (String.length s <= n)%nat -> String.get n s = None.
Proof.
  induction s as [| a s IH]; intros n H; [reflexivity |].
  destruct n as [| n]; cbn in H; [lia |].
  cbn. apply IH. lia.
Qed.

Lemma String_at_append_left s t i :
  0 <= i < Z.of_nat (String.length s) ->
  String_at (s ++ t) i = String_at s i.
Proof.
  intros H. unfold String_at.
  destruct (Z.ltb_spec i 0); [reflexivity |].
  rewrite <- (append_correct1 s t (Z.to_nat i)) by lia. reflexivity.
Qed.

Lemma String_at_append_right s t i :
  Z.of_nat (String.length s) <= i ->
  String_at (s ++ t) i = String_at t (i - Z.of_nat (String.length s)).
Proof.
  intros H. unfold String_at.
  destruct (Z.ltb_spec i 0); [lia |].
  destruct (Z.ltb_spec (i - Z.of_nat (String.length s)) 0); [lia |].
  rewrite (append_correct2 s t (Z.to_nat (i - Z.of_nat (String.length s)))).
  replace (Z.to_nat (i - Z.of_nat (String.length s)) + String.length s)%nat
    with (Z.to_nat i) by lia.
  reflexivity.
Qed.

(** X14. Only the first eight characters of a string matter: for a string
    of eight characters or more, [setString] makes exactly the same
    primitive calls, and returns the same, whatever is appended to it. *)
Theorem setString_ignores_past_eight P drv s t :
  (8 <= String.length s)%nat ->
  setString P drv (s ++ t) = setString P drv s.
Proof.
  intros H. apply setString_ext. intros i Hi.
  rewrite String_at_append_left by lia. reflexivity.
Qed.

Lemma setString_ignores_past_eight_witness :
  setString esp32 uno_pins ("12345678" ++ "9")
  = setString esp32 uno_pins "12345678".
Proof.
  apply (setString_ignores_past_eight esp32 uno_pins "12345678" "9").
  cbn. lia.
Defined.

(** X15. A string behaves as if padded with spaces: appending eight spaces
    to any string changes nothing in what [setString] does.  A character
    read past the end of the string is the zero character, which selects
    the blank entry like a space. *)
Theorem setString_pads_with_spaces P drv s :
  setString P drv (s ++ "        ") = setString P drv s.
Proof.
  apply setString_ext. intros i Hi.
  destruct (Z.lt_ge_cases i (Z.of_nat (String.length s))) as [L | G].
  - rewrite String_at_append_left by lia. reflexivity.
  - rewrite String_at_append_right by exact G.
    assert (E : String_at s i = 0).
    { unfold String_at. destruct (Z.ltb_spec i 0); [reflexivity |].
      rewrite String_get_past_end by lia. reflexivity. }
    rewrite E.
    set (k := i - Z.of_nat (String.length s)).
    assert (K : k = 0 \/ k = 1 \/ k = 2 \/ k = 3 \/ k = 4 \/ k = 5 \/ k = 6
                \/ k = 7) by lia.
    repeat (destruct K as [-> | K]; [reflexivity |]). rewrite K. reflexivity.
Qed.

(** ** The character table *)

Lemma glyph_in_table P chr :
  0 <= chr < 256 -> chr <> 91 -> glyph P chr = table_glyph chr.
Proof.
  intros H N.
  assert (E := byte_forall
                 (fun c => (c =? 91) || (setChar_index c <? 46))
                 eq_refl chr H).
  cbv beta in E. apply orb_true_iff in E.
  destruct E as [E | E]; [apply Z.eqb_eq in E; contradiction |].
  apply Z.ltb_lt in E.
  assert (0 <= setChar_index chr).
  { unfold setChar_index.
    destruct (_ || _); [lia | apply byte_cast_range]. }
  unfold glyph, pgm_read_byte_near, table_glyph.
  rewrite (nth_error_nth' asciiTableRef 0)
    by (rewrite asciiTableRef_length; lia).
  reflexivity.
Qed.

(** X16. Which characters show something: for every 8-bit character value
    other than '[', the pattern [setChar] transmits has a segment lit
    exactly for '-', '.', the ten digits and the letters of either case
    other than K, M, Q, W, X and Z; every other character is sent as the
    blank pattern 0. *)
Theorem glyph_lit_characters P chr :
  0 <= chr < 256 -> chr <> 91 ->
  (glyph P chr <> 0 <-> lights chr = true).
Proof.
  intros H N. rewrite glyph_in_table by assumption.
  assert (E := byte_forall
                 (fun c => Bool.eqb (negb (table_glyph c =? 0)) (lights c))
                 eq_refl chr H).
  cbv beta in E. apply Bool.eqb_prop in E. rewrite <- E.
  destruct (Z.eqb_spec (table_glyph chr) 0) as [Z0 | NZ]; cbn [negb];
    split; intros G; first [exact NZ | reflexivity | discriminate G
                           | exfalso; exact (G Z0)].
Qed.

Lemma glyph_lit_characters_witness :
  glyph avr 120 <> 0 <-> lights 120 = true.
Proof. apply (glyph_lit_characters avr 120); [lia | discriminate]. Defined.

(** X17. The ten digits have ten different patterns, none of them blank
    and none with the decimal-point bit: two digit characters that
    [setChar] renders alike are the same digit. *)
Theorem glyph_digits_distinct P c1 c2 :
  48 <= c1 <= 57 -> 48 <= c2 <= 57 ->
  (glyph P c1 = glyph P c2 -> c1 = c2) /\
  0 < glyph P c1 < 128.
Proof.
  intros H1 H2.
  rewrite !glyph_in_table by lia.
  assert (E := byte_forall
    (fun a => forallb
       (fun b => negb ((48 <=? a) && (a <=? 57) && (48 <=? b) && (b <=? 57))
                 || ((negb (table_glyph a =? table_glyph b) || (a =? b))
                     && (0 <? table_glyph a) && (table_glyph a <? 128)))
       (map Z.of_nat (seq 0 256)))
    eq_refl c1 ltac:(lia)).
  cbv beta in E.
  pose proof (byte_forall _ E c2 ltac:(lia)) as F. cbv beta in F.
  assert (D : (48 <=? c1) && (c1 <=? 57) && (48 <=? c2) && (c2 <=? 57)
              = true).
  { repeat (apply andb_true_iff; split); apply Z.leb_le; lia. }
  rewrite D in F. cbn [negb orb] in F.
  apply andb_true_iff in F. destruct F as (F & F3).
  apply andb_true_iff in F. destruct F as (F1 & F2).
  apply Z.ltb_lt in F2, F3. split; [| lia].
  intros G. apply orb_true_iff in F1. destruct F1 as [F1 | F1].
  - apply negb_true_iff, Z.eqb_neq in F1. contradiction.
  - apply Z.eqb_eq in F1. exact F1.
Qed.

Lemma glyph_digits_distinct_witness :
  (glyph avr 48 = glyph avr 56 -> 48 = 56) /\ 0 < glyph avr 48 < 128.
Proof. apply (glyph_digits_distinct avr 48 56); lia. Defined.

(** X18. The decimal point: for every 8-bit character value other than
    '[', the pattern transmitted has its top bit (the decimal point) set
    exactly when the character is '.', and for '.' no other segment is
    lit. *)
Theorem glyph_decimal_point P chr :
  0 <= chr < 256 -> chr <> 91 ->
  Z.testbit (glyph P chr) 7 = (chr =? 46) /\
  glyph P 46 = 128.
Proof.
  intros H N. split; [| reflexivity].
  rewrite glyph_in_table by assumption.
  assert (E := byte_forall
                 (fun c => Bool.eqb (Z.testbit (table_glyph c) 7) (c =? 46))
                 eq_refl chr H).
  cbv beta in E. apply Bool.eqb_prop in E. exact E.
Qed.

Lemma glyph_decimal_point_witness :
  Z.testbit (glyph avr 46) 7 = (46 =? 46) /\ glyph avr 46 = 128.
Proof. apply (glyph_decimal_point avr 46); [lia | discriminate]. Defined.

(** ** Letter case in strings *)

Lemma upcase_char_value c :
  Z.of_nat (nat_of_ascii (upcase_char c))
  = fold_case (Z.of_nat (nat_of_ascii c)).
Proof.
  unfold upcase_char. pose proof (nat_ascii_bounded c) as B.
  assert (R : 0 <= fold_case (Z.of_nat (nat_of_ascii c)) < 256).
  { unfold fold_case. destruct (_ && _) eqn:E; [| lia].
    apply andb_true_iff in E. destruct E as (E1 & E2).
    apply Z.leb_le in E1, E2. lia. }
  rewrite nat_ascii_embedding by lia. lia.
Qed.

Lemma get_upcase s : forall n,
  String.get n (upcase s) = option_map upcase_char (String.get n s).
Proof.
  induction s as [| a s IH]; intros n; [reflexivity |].
  destruct n as [| n]; cbn; [reflexivity | apply IH].
Qed.

Lemma String_at_upcase s i : String_at (upcase s) i = fold_case (String_at s i).
Proof.
  unfold String_at. destruct (Z.ltb_spec i 0); [reflexivity |].
  rewrite get_upcase. destruct (String.get (Z.to_nat i) s) as [c |]; cbn.
  - apply upcase_char_value.
  - reflexivity.
Qed.

Lemma String_at_range s i : 0 <= String_at s i < 256.
Proof.
  unfold String_at. destruct (i <? 0); [lia |].
  destruct (String.get (Z.to_nat i) s) as [c |]; [| lia].
  pose proof (nat_ascii_bounded c). lia.
Qed.

Lemma setChar_index_fold_case c :
  0 <= c < 256 -> setChar_index (fold_case c) = setChar_index c.
Proof.
  intros H. apply Z.eqb_eq.
  exact (byte_forall
           (fun c => setChar_index (fold_case c) =? setChar_index c)
           eq_refl c H).
Qed.

(** X19. [setString] does not distinguish letter case: a string and the
    same string with its lowercase letters in upper case give exactly the
    same primitive calls and result. *)
Theorem setString_case_insensitive P drv s :
  setString P drv (upcase s) = setString P drv s /\
  upcase "Help 7b" = "HELP 7B"%string.
Proof.
  split; [| reflexivity].
  apply setString_ext. intros i _.
  rewrite String_at_upcase. apply setChar_index_fold_case, String_at_range.
Qed.

(** ** Calls of the transmit primitive in sequence *)

(** X20. Calls of [sendSPI] made one after the other do not disturb each
    other: for any list of (data, instruction) pairs, the device takes one
    frame per call, in call order, each holding that call's two bytes
    whatever was shifted in before, and the link is at rest at the end. *)
Theorem sendSPI_sequence drv cmds d :
  distinct_pins drv -> idle d ->
  let t := flat_map (fun c => trace (sendSPI drv (fst c) (snd c))) cmds in
  MAX7219.latched (MAX7219.run drv d t)
  = MAX7219.latched d
    ++ map (fun c => (byte_cast (snd c), byte_cast (fst c))) cmds /\
  idle (MAX7219.run drv d t).
Proof.
  intros pins Hd t. subst t.
  assert (T : transmits drv
                (flat_map (fun c => trace (sendSPI drv (fst c) (snd c))) cmds)
                (map (fun c => (byte_cast (snd c), byte_cast (fst c))) cmds)).
  { induction cmds as [| c cmds IH]; [apply transmits_nil |].
    cbn [flat_map map].
    change (?x :: map ?f cmds) with ([x] ++ map f cmds).
    apply transmits_app; [apply transmits_sendSPI, pins | exact IH]. }
  destruct (T d Hd) as (I & L & _). auto.
Qed.

Lemma sendSPI_sequence_witness :
  let t := flat_map (fun c => trace (sendSPI uno_pins (fst c) (snd c)))
             [(0x7E, 1); (0x30, 2)] in
  MAX7219.latched (MAX7219.run uno_pins all_lit t)
  = MAX7219.latched all_lit
    ++ map (fun c => (byte_cast (snd c), byte_cast (fst c)))
         [(0x7E, 1); (0x30, 2)] /\
  idle (MAX7219.run uno_pins all_lit t).
Proof.
  assert (pins : distinct_pins uno_pins)
    by (unfold distinct_pins; cbn; repeat split; discriminate).
  assert (I : idle all_lit) by (split; reflexivity).
  exact (sendSPI_sequence uno_pins [(0x7E, 1); (0x30, 2)] all_lit pins I).
Defined.
